(** * Tree protection zones: the geometry policy, the feature normalizer and
      the paginated ArcGIS client of [main.py]

    The development embeds the algorithmic parts of [main.py] as Rocq
    functions and proves the properties the specification states about
    them.

    Numbers.  Diameters, coordinates and radii are JSON numbers; they are
    modelled as exact rationals ([Q]).  Binary rounding and the special
    values of IEEE arithmetic are outside the model.  Counts, offsets and
    list positions are natural numbers, object identifiers are integers.

    Effects.  The client talks to a remote service, sleeps between requests
    and writes to the Streamlit page.  These effects are modelled by a state
    monad over a [world], the chronological list of the events that took
    place.  The remote service is an arbitrary function from the number of
    requests already answered and the current request to a result, so a
    service may fail at some requests and answer others.

    Part I holds the embedding, Part II the proofs. *)

From Stdlib Require Import QArith Qabs Qminmax Lqa ZArith Lia.
From stdpp Require Import gmap strings list.

Close Scope Q_scope.

(** * Part I: the embedding *)

(** ** Geometry policy *)

Module Geometry.

(** [calculate_protection_radius], lines 21-29. *)
Definition calculate_protection_radius (diameter : Q) : Q :=
  if Qle_bool diameter 5 then 5%Q else (5 + (diameter - 5))%Q.

(** [feet_to_meters], lines 32-33. *)
Definition feet_to_meters (feet : Q) : Q := (feet * (3048 # 10000))%Q.

End Geometry.

(** ** Python values shared by the normalizer and the client *)

Module Py.

(** The exceptions the modelled code can meet.  [RequestException] stands
    for [requests.exceptions.RequestException] and its subclasses (network
    errors, timeouts, a status that [raise_for_status] rejects); the others
    are caught by the handlers for plain [Exception]. *)
Inductive exn : Type :=
| RequestException
| ZeroDivisionError
| KeyError (key : string)
| TypeError
| IndexError
| AttributeError.

Definition is_request_exception (e : exn) : bool :=
  match e with RequestException => true | _ => false end.

(** A scalar JSON value, as found in the properties of a feature. *)
Inductive json : Type :=
| JNull
| JBool (b : bool)
| JNum (q : Q)
| JStr (s : string).

(** [d.get(key, dflt)]: the default is used only when the key is absent. *)
Definition dict_get {V : Type} (d : gmap string V) (key : string) (dflt : V) : V :=
  default dflt (d !! key).

(** [range(start, stop, step)] for a positive [step], produced the way the
    iterator runs: the next value is yielded while it is below [stop]. *)
Fixpoint range_from (fuel start stop step : nat) : list nat :=
  match fuel with
  | O => []
  | S fuel' =>
      if start <? stop then start :: range_from fuel' (start + step) stop step
      else []
  end.

Definition range (start stop step : nat) : list nat :=
  range_from (stop - start) start stop step.

(** [l[i:j]] for [0 <= i <= j]: out-of-range bounds are clipped. *)
Definition slice {A : Type} (l : list A) (i j : nat) : list A :=
  take (j - i) (drop i l).

(** [a / b] on non-negative integers: true division, which raises
    [ZeroDivisionError] when [b] is zero. *)
Definition truediv (a b : nat) : exn + Q :=
  match b with
  | O => inl ZeroDivisionError
  | S _ => inr (Qmake (Z.of_nat a) (Pos.of_nat b))
  end.

End Py.

(** ** Feature normalizer *)

Module Normalizer.
Import Py.

(** A GeoJSON point geometry; [coordinates = None] when the key is
    missing. *)
Record point_geometry : Type := PointGeometry {
  coordinates : option (list Q)
}.

(** A raw feature: its [properties] dictionary and its [geometry] member;
    either is [None] for a JSON [null]. *)
Record feature : Type := Feature {
  properties : option (gmap string json);
  geometry : option point_geometry
}.

(** [{'type': ..., 'features': [...]}]. *)
Record feature_collection : Type := FeatureCollection {
  fc_type : string;
  features : list feature
}.

(** One row of the DataFrame built by [process_geojson_data]. *)
Record tree_record : Type := TreeRecord {
  longitude : Q;
  latitude : Q;
  diameter : json;
  species_common : json;
  species_botanical : json;
  status : json;
  site_id : json;
  object_id : json
}.

(** The body of the loop of [process_geojson_data], lines 40-53: the
    dictionary appended for one feature, or the exception raised while
    building it. *)
Definition process_feature (feature : feature) : exn + tree_record :=
  match geometry feature with
  | None => inl TypeError
  | Some g =>
      match coordinates g with
      | None => inl (KeyError "coordinates")
      | Some coords =>
          match coords !! 0%nat, coords !! 1%nat, properties feature with
          | Some c0, Some c1, Some props =>
              inr {|
                longitude := c0;
                latitude := c1;
                diameter :=
                  dict_get props "DIAMETER" (dict_get props "diameter" (JNum 0));
                species_common :=
                  dict_get props "SPP_COM"
                    (dict_get props "species_common" (JStr "Unknown"));
                species_botanical :=
                  dict_get props "SPP_BOT"
                    (dict_get props "species_botanical" (JStr "Unknown"));
                status :=
                  dict_get props "STATUS" (dict_get props "status" (JStr "Unknown"));
                site_id :=
                  dict_get props "site_id" (dict_get props "OBJECTID" (JStr "Unknown"));
                object_id :=
                  dict_get props "OBJECTID" (dict_get props "object_id" JNull)
              |}
          | Some _, Some _, None => inl AttributeError
          | _, _, _ => inl IndexError
          end
      end
  end.

(** The [for] loop of [process_geojson_data] over the remaining features,
    with the list [features] built so far.  An exception raised for one
    feature leaves the loop and the function. *)
Fixpoint process_loop (todo : list feature) (rows : list tree_record)
  : exn + list tree_record :=
  match todo with
  | [] => inr rows
  | f :: todo' =>
      match process_feature f with
      | inl e => inl e
      | inr row => process_loop todo' (rows ++ [row])
      end
  end.

(** [process_geojson_data], lines 36-55; the DataFrame is the list of its
    rows. *)
Definition process_geojson_data (geojson_data : feature_collection)
  : exn + list tree_record :=
  process_loop (features geojson_data) [].

End Normalizer.

(** ** The effects of the client *)

Module Effects.
Import Py Normalizer.

(** The two queries the client sends to the service ([params] of
    [requests.get]).  The [objectIds] parameter of a feature query is the
    comma-separated rendering of the chunk; the chunk itself is kept. *)
Inductive request : Type :=
| IdQuery (where_clause : string) (resultOffset resultRecordCount : nat)
| FeatureQuery (objectIds : list Z) (outFields : string).

(** The decoded JSON answer, read through the two members the client looks
    at.  [resp_objectIds] is [None] when the member is missing or [null]. *)
Record response_json : Type := ResponseJson {
  resp_objectIds : option (list Z);
  resp_features : option (list feature)
}.

(** What [requests.get], [raise_for_status] and [response.json] come to for
    one request: an exception, or the decoded answer. *)
Inductive http_result : Type :=
| Raises (e : exn)
| Returns (data : response_json).

(** A remote service: the result of the [n]-th request of the session
    (counted from 0), given what that request is. *)
Definition service : Type := nat -> request -> http_result.

(** The texts written to the page, with the values formatted into them. *)
Inductive message : Type :=
| MsgFetchingIds (retrieved : nat)
| MsgRetrievedIds (total : nat)
| MsgErrorFetchingIds (offset : nat) (e : exn)
| MsgErrorProcessingIds (e : exn)
| MsgProcessingBatch (batch total size : nat)
| MsgErrorFetchingFeatures (batch : nat) (e : exn)
| MsgErrorProcessingFeatures (batch : nat) (e : exn)
| MsgProcessedFeatures (count : nat)
| MsgStep1
| MsgNoObjectIds
| MsgStep2 (count batch_size : nat)
| MsgLoadedFeatures (count : nat)
| MsgUsingCached (count : nat).

Inductive event : Type :=
| HttpGet (req : request) (res : http_result)
| Sleep (seconds : nat)
| StEmpty
| StText (m : message)
| StProgressNew
| StProgress (value : Q)
| StProgressEmpty
| StInfo (m : message)
| StWarning (m : message)
| StSuccess (m : message)
| StError (m : message)
| StRerun.

(** The events so far, oldest first. *)
Definition world : Type := list event.

Definition io (A : Type) : Type := world -> A * world.

#[global] Instance io_ret : MRet io := fun A (a : A) w => (a, w).
#[global] Instance io_bind : MBind io :=
  fun A B (f : A -> io B) (m : io A) w => let '(a, w') := m w in f a w'.

Definition emit (e : event) : io unit := fun w => (tt, w ++ [e]).

(** The requests sent so far, oldest first. *)
Definition http_requests (w : world) : list request :=
  omap (fun e => match e with HttpGet req _ => Some req | _ => None end) w.

Definition requests_made (w : world) : nat := length (http_requests w).

Section WithService.
Variable svc : service.

(** [requests.get(...)] followed by [raise_for_status()] and [json()]. *)
Definition requests_get (req : request) : io http_result :=
  fun w => let res := svc (requests_made w) req in (res, w ++ [HttpGet req res]).

End WithService.

End Effects.

(** Unfolds one step of a computation in [io]. *)
Ltac io_step :=
  unfold mbind, Effects.io_bind, mret, Effects.io_ret, Effects.emit,
    Effects.requests_get; simpl.

(** ** The paginated client *)

Module Client.
Import Py Normalizer Effects.

(** Lines 90-92. *)
Definition OBJECT_ID_BATCH_SIZE : nat := 1000.
Definition FEATURE_BATCH_SIZE : nat := 100.

(** The pause taken after the [n]-th batch: five seconds every ten
    batches, one second otherwise (lines 136-140 and 189-193). *)
Definition courtesy_delay (n : nat) : nat :=
  if n mod 10 =? 0 then 5 else 1.

(** Lines 159-160: the chunks of a batched feature fetch, for a chunk
    size [size]. *)
Definition chunks_of (size : nat) (object_ids : list Z) : list (list Z) :=
  map (fun i => slice object_ids i (i + size)) (range 0 (length object_ids) size).

Definition id_chunks (object_ids : list Z) : list (list Z) :=
  chunks_of FEATURE_BATCH_SIZE object_ids.

Section WithService.
Variable svc : service.

(** The [while True] loop of [get_object_ids], lines 109-149, entered with
    the current [all_object_ids], [offset] and [batch_count].  Each
    iteration uses one unit of [fuel]; [None] means the fuel ran out before
    the loop reached a [break]. *)
Fixpoint get_object_ids_loop (fuel : nat) (where_clause : string) (batch_size : nat)
    (all_object_ids : list Z) (offset batch_count : nat) : io (option (list Z)) :=
  match fuel with
  | O => mret None
  | S fuel' =>
      emit (StText (MsgFetchingIds (length all_object_ids)));;
      r ← requests_get svc (IdQuery where_clause offset batch_size);
      match r with
      | Raises e =>
          emit (StError (if is_request_exception e
                         then MsgErrorFetchingIds offset e
                         else MsgErrorProcessingIds e));;
          mret (Some all_object_ids)
      | Returns data =>
          match resp_objectIds data with
          | Some ((_ :: _) as batch_ids) =>
              let all_object_ids := all_object_ids ++ batch_ids in
              if length batch_ids <? batch_size then mret (Some all_object_ids)
              else
                let offset := offset + length batch_ids in
                let batch_count := batch_count + 1 in
                emit (Sleep (courtesy_delay batch_count));;
                get_object_ids_loop fuel' where_clause batch_size
                  all_object_ids offset batch_count
          | _ => mret (Some all_object_ids)
          end
      end
  end.

(** [get_object_ids], lines 101-152. *)
Definition get_object_ids (fuel : nat) (where_clause : string) (batch_size : nat)
  : io (option (list Z)) :=
  emit StEmpty;;
  r ← get_object_ids_loop fuel where_clause batch_size [] 0 0;
  match r with
  | None => mret None
  | Some all_object_ids =>
      emit (StText (MsgRetrievedIds (length all_object_ids)));;
      mret (Some all_object_ids)
  end.

(** The [for] loop of [get_features_by_ids], lines 165-200, over the
    chunks that remain; [i] is the index of the first of them and [total]
    is [len(id_chunks)]. *)
Fixpoint get_features_loop (total i : nat) (chunks : list (list Z))
    (out_fields : string) (all_features : list feature) : io (list feature) :=
  match chunks with
  | [] => mret all_features
  | chunk :: chunks' =>
      emit (StText (MsgProcessingBatch (i + 1) total (length chunk)));;
      r ← requests_get svc (FeatureQuery chunk out_fields);
      match r with
      | Raises e =>
          emit (StError (if is_request_exception e
                         then MsgErrorFetchingFeatures (i + 1) e
                         else MsgErrorProcessingFeatures (i + 1) e));;
          get_features_loop total (i + 1) chunks' out_fields all_features
      | Returns chunk_data =>
          let all_features :=
            match resp_features chunk_data with
            | Some fs => all_features ++ fs
            | None => all_features
            end in
          match truediv (i + 1) total with
          | inl e =>
              emit (StError (MsgErrorProcessingFeatures (i + 1) e));;
              get_features_loop total (i + 1) chunks' out_fields all_features
          | inr fraction =>
              emit (StProgress fraction);;
              emit (Sleep (courtesy_delay (i + 1)));;
              get_features_loop total (i + 1) chunks' out_fields all_features
          end
      end
  end.

(** [get_features_by_ids], lines 154-209. *)
Definition get_features_by_ids (object_ids : list Z) (out_fields : string)
  : io feature_collection :=
  let id_chunks := id_chunks object_ids in
  emit StProgressNew;;
  emit StEmpty;;
  all_features ← get_features_loop (length id_chunks) 0 id_chunks out_fields [];
  emit (StText (MsgProcessedFeatures (length all_features)));;
  emit StProgressEmpty;;
  mret {| fc_type := "FeatureCollection"; features := all_features |}.

End WithService.

End Client.

(** ** The handlers of the "Load Madison Tree Data" button *)

Module App.
Import Py Normalizer Effects Client.

(** The two places the script keeps a loaded collection in:
    [st.session_state['geojson_data']] ([None] when the key is not set)
    and the module variable [geojson_data] that the visualisation reads
    ([None] for Python's [None]). *)
Record app : Type := AppState {
  session_geojson_data : option feature_collection;
  geojson_data : option feature_collection
}.

Section WithService.
Variable svc : service.

(** Lines 251-279, the button inside the expander, shown when a local file
    was loaded.  The fetched collection is a dictionary with the key
    ['features'], so the test of line 270 succeeds and line 276 is not
    reached. *)
Definition load_madison_expander (fuel : nat) (a : app) : io (option app) :=
  emit (StInfo MsgStep1);;
  r ← get_object_ids svc fuel "1=1" OBJECT_ID_BATCH_SIZE;
  match r with
  | None => mret None
  | Some [] =>
      emit (StWarning MsgNoObjectIds);;
      mret (Some a)
  | Some object_ids =>
      emit (StInfo (MsgStep2 (length object_ids) FEATURE_BATCH_SIZE));;
      madison_data ← get_features_by_ids svc object_ids "*";
      emit (StSuccess (MsgLoadedFeatures (length (features madison_data))));;
      emit StRerun;;
      mret (Some {| session_geojson_data := Some madison_data;
                    geojson_data := geojson_data a |})
  end.

(** Lines 304-336, the button in the sidebar, shown when no local file was
    loaded, followed by the use of the cached collection.  As above, the
    test of line 323 succeeds and line 328 is not reached. *)
Definition load_madison_sidebar (fuel : nat) (a : app) : io (option app) :=
  emit (StInfo MsgStep1);;
  r ← get_object_ids svc fuel "1=1" OBJECT_ID_BATCH_SIZE;
  match r with
  | None => mret None
  | Some object_ids =>
      a ← match object_ids with
          | [] =>
              emit (StWarning MsgNoObjectIds);;
              mret a
          | _ :: _ =>
              emit (StInfo (MsgStep2 (length object_ids) FEATURE_BATCH_SIZE));;
              geojson_data ← get_features_by_ids svc object_ids "*";
              emit (StSuccess (MsgLoadedFeatures (length (features geojson_data))));;
              mret {| session_geojson_data := Some geojson_data;
                      geojson_data := Some geojson_data |}
          end;
      match session_geojson_data a with
      | Some cached =>
          emit (StSuccess (MsgUsingCached (length (features cached))));;
          mret (Some {| session_geojson_data := Some cached;
                        geojson_data := Some cached |})
      | None => mret (Some a)
      end
  end.

End WithService.

End App.

(** ** The specification's reading of the normalizer *)

Module NormalizerSpec.
Import Py Normalizer.

(** The specification's [MalformedGeometry]: the coordinate pair is missing
    or has fewer than two components. *)
Definition malformed_geometry (f : feature) : bool :=
  match geometry f with
  | Some {| coordinates := Some coords |} => length coords <? 2
  | _ => true
  end.

(** The specification's lookup of a field: the value of the first
    candidate key that is present, the default when none is. *)
Fixpoint first_present (props : gmap string json) (candidates : list string)
    (dflt : json) : json :=
  match candidates with
  | [] => dflt
  | key :: candidates' =>
      match props !! key with
      | Some v => v
      | None => first_present props candidates' dflt
      end
  end.

End NormalizerSpec.

(** ** Sample features *)

Module Samples.
Import Py Normalizer.

Definition madison_point : point_geometry :=
  {| coordinates := Some [(-89385608 # 1000000)%Q; (43056392 # 1000000)%Q] |}.

(** The feature of the specification's end-to-end example. *)
Definition honeylocust : feature :=
  {| properties :=
       Some ({[ "DIAMETER" := JNum 6;
                "SPP_COM" := JStr "Honeylocust";
                "OBJECTID" := JNum 1 ]} : gmap string json);
     geometry := Some madison_point |}.

(** A feature with coordinates and no property at all. *)
Definition bare_tree : feature :=
  {| properties := Some (∅ : gmap string json);
     geometry := Some madison_point |}.

(** A feature whose coordinates have one component only. *)
Definition short_point : feature :=
  {| properties := Some ({[ "DIAMETER" := JNum 12 ]} : gmap string json);
     geometry := Some {| coordinates := Some [(-89 # 1)%Q] |} |}.

(** A feature that names both spellings of its fields. *)
Definition both_spellings : feature :=
  {| properties :=
       Some ({[ "DIAMETER" := JNum 8;
                "diameter" := JNum 3;
                "site_id" := JNum 403144;
                "OBJECTID" := JNum 7 ]} : gmap string json);
     geometry := Some madison_point |}.

Definition mixed_collection : feature_collection :=
  {| fc_type := "FeatureCollection";
     features := [honeylocust; short_point; both_spellings] |}.

End Samples.

(** ** The specification's vocabulary for the client *)

Module ClientSpec.
Import Py Normalizer Effects Client.

(** [ceil(n / c)]. *)
Definition ceil_div (n c : nat) : nat := (n + (c - 1)) / c.

(** A chunk request succeeded when it raised nothing. *)
Definition succeeded (res : http_result) : bool :=
  match res with Returns _ => true | Raises _ => false end.

(** The features a chunk's answer carries. *)
Definition chunk_features (res : http_result) : list feature :=
  match res with
  | Returns data => default [] (resp_features data)
  | Raises _ => []
  end.

(** The results of the requests for [chunks], sent in order as the
    requests number [n], [n + 1], ... of the session. *)
Definition chunk_results (svc : service) (n : nat) (out_fields : string)
    (chunks : list (list Z)) : list http_result :=
  imap (fun j chunk => svc (n + j) (FeatureQuery chunk out_fields)) chunks.

(** The progress values shown, oldest first. *)
Definition progress_updates (w : world) : list Q :=
  omap (fun e => match e with StProgress q => Some q | _ => None end) w.

(** The pauses taken, oldest first, in seconds. *)
Definition sleeps (w : world) : list nat :=
  omap (fun e => match e with Sleep seconds => Some seconds | _ => None end) w.

(** The error texts written, oldest first. *)
Definition errors (w : world) : list message :=
  omap (fun e => match e with StError m => Some m | _ => None end) w.

(** The offsets of the identifier queries among [reqs]. *)
Definition id_offsets (reqs : list request) : list nat :=
  omap (fun r => match r with IdQuery _ off _ => Some off | _ => None end) reqs.

(** The requests sent so far with their results, oldest first. *)
Definition exchanges (w : world) : list (request * http_result) :=
  omap (fun e => match e with HttpGet req res => Some (req, res) | _ => None end) w.

(** The identifiers an answer to an identifier query carries: none when
    the request failed or the member is missing, [null] or empty. *)
Definition page_of (res : http_result) : list Z :=
  match res with
  | Returns data => default [] (resp_objectIds data)
  | Raises _ => []
  end.

(** The pages received, one per request, oldest first. *)
Definition pages_received (w : world) : list (list Z) :=
  map (fun x => page_of (snd x)) (exchanges w).

(** A full page: it carries identifiers, and not fewer than asked for. *)
Definition full_page (batch_size : nat) (res : http_result) : bool :=
  match page_of res with
  | [] => false
  | (_ :: _) as page => negb (length page <? batch_size)
  end.

(** The offsets at which [pages] are asked for when the first offset is
    [offset] and each page moves the offset by the number of identifiers it
    carries. *)
Fixpoint page_offsets (offset : nat) (pages : list (list Z)) : list nat :=
  match pages with
  | [] => []
  | page :: pages' => offset :: page_offsets (offset + length page) pages'
  end.

End ClientSpec.

(** ** Sample services *)

Module Services.
Import Py Normalizer Effects Samples.

(** The feature a sample service keeps under an identifier. *)
Definition tree_of_id (id : Z) : feature :=
  {| properties := Some ({[ "OBJECTID" := JNum (inject_Z id) ]} : gmap string json);
     geometry := Some madison_point |}.

(** A well-behaved service that holds the identifiers [ids]: an identifier
    query is answered with the window of [resultRecordCount] identifiers
    that starts at [resultOffset], a feature query with the features of
    the identifiers asked for. *)
Definition paged_service (ids : list Z) : service :=
  fun _ req =>
    match req with
    | IdQuery _ offset count =>
        Returns {| resp_objectIds := Some (take count (drop offset ids));
                   resp_features := None |}
    | FeatureQuery chunk _ =>
        Returns {| resp_objectIds := None;
                   resp_features := Some (map tree_of_id chunk) |}
    end.

(** A service that answers the first requests of the session with the
    given pages of identifiers, one page per request, and fails with [e]
    from then on. *)
Definition scripted_service (pages : list (list Z)) (e : exn) : service :=
  fun n _ =>
    match pages !! n with
    | Some page => Returns {| resp_objectIds := Some page; resp_features := None |}
    | None => Raises e
    end.

(** A feature service whose request number [n] fails with [e] when
    [fails n] holds, and otherwise returns the feature [db id] of every
    identifier asked for. *)
Definition chunk_service (fails : nat -> bool) (e : exn) (db : Z -> feature) : service :=
  fun n req =>
    match req with
    | FeatureQuery chunk _ =>
        if fails n then Raises e
        else Returns {| resp_objectIds := None;
                        resp_features := Some (map db chunk) |}
    | IdQuery _ _ _ => Raises e
    end.

(** A service that answers every request with the same page of
    identifiers, whatever the offset. *)
Definition stuck_service (page : list Z) : service :=
  fun _ _ => Returns {| resp_objectIds := Some page; resp_features := None |}.

(** A service that holds the identifiers [ids] and never returns more than
    [cap] of them in one answer, however many are asked for. *)
Definition capped_service (cap : nat) (ids : list Z) : service :=
  fun _ req =>
    match req with
    | IdQuery _ offset count =>
        Returns {| resp_objectIds := Some (take (Nat.min cap count) (drop offset ids));
                   resp_features := None |}
    | FeatureQuery chunk _ =>
        Returns {| resp_objectIds := None;
                   resp_features := Some (map tree_of_id chunk) |}
    end.

(** The identifiers [first], [first + 1], ..., [count] of them. *)
Definition id_run (first count : nat) : list Z := map Z.of_nat (seq first count).

End Services.

(** ** The visualisation of a loaded collection *)

Module Visualization.
Import Py Normalizer Geometry.

(** A row of [filtered_df] once the two radius columns are added (lines
    373-377). *)
Record zone_row : Type := ZoneRow {
  tree : tree_record;
  tree_diameter : Q;
  protection_radius_feet : Q;
  protection_radius_meters : Q
}.

(** The diameter of a row when it is a JSON number. *)
Definition diameter_value (r : tree_record) : option Q :=
  match diameter r with
  | JNum q => Some q
  | _ => None
  end.

(** The rows of a frame paired with their diameters, when the diameter
    column is numeric.  [None]: some diameter is not a number; what pandas
    does with such a column depends on the mix of its values and is not
    modelled. *)
Fixpoint diameter_column (df : list tree_record) : option (list (tree_record * Q)) :=
  match df with
  | [] => Some []
  | r :: df' =>
      match diameter_value r, diameter_column df' with
      | Some d, Some rest => Some ((r, d) :: rest)
      | _, _ => None
      end
  end.

(** Lines 373-377: the rows whose diameter is at least [min_diameter], in
    their order, each with its protection radius in feet and in meters. *)
Definition protection_zones (min_diameter : Q) (df : list tree_record)
  : option (list zone_row) :=
  match diameter_column df with
  | None => None
  | Some table =>
      let filtered_df :=
        List.filter (fun row => Qle_bool min_diameter (snd row)) table in
      Some (map (fun row =>
                   {| tree := fst row;
                      tree_diameter := snd row;
                      protection_radius_feet :=
                        calculate_protection_radius (snd row);
                      protection_radius_meters :=
                        feet_to_meters (calculate_protection_radius (snd row)) |})
                filtered_df)
  end.

(** [Series.mean()] of a column of numbers. *)
Definition mean (column : list Q) : Q :=
  (fold_right Qplus 0 column / inject_Z (Z.of_nat (length column)))%Q.

(** The four metrics of lines 380-390. *)
Record statistics : Type := Statistics {
  total_trees : nat;
  filtered_trees : nat;
  avg_diameter : Q;
  avg_protection : Q
}.

Definition compute_statistics (df : list tree_record) (zones : list zone_row)
  : statistics :=
  {| total_trees := length df;
     filtered_trees := length zones;
     avg_diameter :=
       if 0 <? length zones then mean (map tree_diameter zones) else 0%Q;
     avg_protection :=
       if 0 <? length zones then mean (map protection_radius_feet zones)
       else 0%Q |}.

(** What the page shows below the sidebar (lines 364-507). *)
Inductive view : Type :=
| Instructions (local_file_loaded : bool)
| ProcessingError (e : exn)
| NoDataFound
| NoTreesMatch (metrics : statistics)
| ZoneMap (metrics : statistics) (zones : list zone_row).

(** Lines 364-507, for the current [geojson_data] and the value of the
    diameter slider.  An exception raised while the frame is built is
    caught at line 474.  [None] only when the diameter column is not
    numeric (see [diameter_column]). *)
Definition visualize (local_file_loaded : bool) (min_diameter : Q)
    (geojson_data : option feature_collection) : option view :=
  match geojson_data with
  | None => Some (Instructions local_file_loaded)
  | Some fc =>
      match process_geojson_data fc with
      | inl e => Some (ProcessingError e)
      | inr [] => Some NoDataFound
      | inr ((_ :: _) as df) =>
          match protection_zones min_diameter df with
          | None => None
          | Some zones =>
              let metrics := compute_statistics df zones in
              if length zones =? 0 then Some (NoTreesMatch metrics)
              else Some (ZoneMap metrics zones)
          end
      end
  end.

(** The test of line 373 read on one row: whether the row stays in
    [filtered_df]. *)
Definition keeps (min_diameter : Q) (r : tree_record) : bool :=
  match diameter_value r with
  | Some d => Qle_bool min_diameter d
  | None => false
  end.

End Visualization.

(** ** The log of a batched feature fetch, chunk by chunk *)

Module FetchLog.
Import Py Normalizer Effects Client.

(** The events of the iteration for the chunk of index [j] (lines 166-200),
    given the result of its request. *)
Definition chunk_events (total j : nat) (chunk : list Z) (out_fields : string)
    (res : http_result) : list event :=
  [StText (MsgProcessingBatch (j + 1) total (length chunk));
   HttpGet (FeatureQuery chunk out_fields) res] ++
  match res with
  | Raises e =>
      [StError (if is_request_exception e
                then MsgErrorFetchingFeatures (j + 1) e
                else MsgErrorProcessingFeatures (j + 1) e)]
  | Returns _ =>
      match truediv (j + 1) total with
      | inl e => [StError (MsgErrorProcessingFeatures (j + 1) e)]
      | inr fraction => [StProgress fraction; Sleep (courtesy_delay (j + 1))]
      end
  end.

(** The events of the iterations for [chunks], the first of index [j] and
    sent as request number [n] of the session. *)
Fixpoint loop_events (svc : service) (total n j : nat) (chunks : list (list Z))
    (out_fields : string) : list event :=
  match chunks with
  | [] => []
  | chunk :: chunks' =>
      chunk_events total j chunk out_fields (svc n (FeatureQuery chunk out_fields)) ++
      loop_events svc total (S n) (j + 1) chunks' out_fields
  end.

(** The error text written for the chunk of index [j], if any. *)
Definition chunk_error (j : nat) (res : http_result) : option message :=
  match res with
  | Raises e =>
      Some (if is_request_exception e
            then MsgErrorFetchingFeatures (j + 1) e
            else MsgErrorProcessingFeatures (j + 1) e)
  | Returns _ => None
  end.

(** The pause taken after the chunk of index [j], if any. *)
Definition chunk_pause (j : nat) (res : http_result) : option nat :=
  match res with
  | Returns _ => Some (courtesy_delay (j + 1))
  | Raises _ => None
  end.

(** The progress value shown after the chunk of index [j] of [total], if
    any. *)
Definition chunk_progress (total j : nat) (res : http_result) : option Q :=
  match res with
  | Returns _ => Some (Qmake (Z.of_nat (j + 1)) (Pos.of_nat total))
  | Raises _ => None
  end.

(** The values of [results] picked by [pick], which sees the index of
    each result counted from [j]. *)
Fixpoint pick_from {A : Type} (pick : nat -> http_result -> option A) (j : nat)
    (results : list http_result) : list A :=
  match results with
  | [] => []
  | res :: results' =>
      match pick j res with
      | Some a => a :: pick_from pick (j + 1) results'
      | None => pick_from pick (j + 1) results'
      end
  end.

End FetchLog.

(** ** The local file and the start of the script *)

Module LocalFile.
Import Py Normalizer.

(** What the working directory holds under a file name: nothing, a file
    that cannot be opened or decoded ([open] or [json.load] raises [e]),
    or a file that decodes to a feature collection. *)
Inductive file : Type :=
| Absent
| Unreadable (e : exn)
| Document (doc : feature_collection).

Definition filesystem : Type := string -> file.

(** What this part of the script does to the file system and the page. *)
Inductive local_event : Type :=
| PathExists (filename : string)
| OpenFile (filename : string)
| ErrorReadingFile (filename : string) (e : exn)
| AutoLoaded
| Reloaded
| ReloadFailed
| Rerun.

(** [load_local_geojson], lines 58-67. *)
Definition load_local_geojson (fs : filesystem) (filename : string)
  : option feature_collection * list local_event :=
  match fs filename with
  | Absent => (None, [PathExists filename])
  | Unreadable e =>
      (None, [PathExists filename; OpenFile filename; ErrorReadingFile filename e])
  | Document doc => (Some doc, [PathExists filename; OpenFile filename])
  end.

(** The default argument of [load_local_geojson]. *)
Definition LOCAL_FILE : string := "Urban_Forestry_Street_Trees.geojson".

(** The two keys of [st.session_state] this part uses: whether
    ['checked_local_file'] is set, and the value under ['geojson_data']
    when that key is set. *)
Record session : Type := Session {
  checked_local_file : bool;
  stored : option feature_collection
}.

(** The variables of the script after its opening part. *)
Record prologue_result : Type := PrologueResult {
  session_after : session;
  local_file_loaded : bool;
  geojson_data : option feature_collection;
  log : list local_event
}.

(** Lines 70-85, then the assignment of line 229 that the branch for a
    loaded file starts with. *)
Definition prologue (fs : filesystem) (s : session) : prologue_result :=
  let '(s1, loaded1, log1) :=
    if checked_local_file s then (s, false, [])
    else
      let '(local_data, events) := load_local_geojson fs LOCAL_FILE in
      match local_data with
      | Some doc =>
          ({| checked_local_file := true; stored := Some doc |}, true,
           events ++ [AutoLoaded])
      | None =>
          ({| checked_local_file := true; stored := stored s |}, false, events)
      end in
  let '(geojson_data2, loaded2) :=
    match stored s1, loaded1 with
    | Some cached, false => (Some cached, true)
    | _, _ => (None, loaded1)
    end in
  {| session_after := s1;
     local_file_loaded := loaded2;
     geojson_data := if loaded2 then stored s1 else geojson_data2;
     log := log1 |}.

(** Lines 233-240, the "Reload Local File" button. *)
Definition reload_local_file (fs : filesystem) (s : session)
  : session * list local_event :=
  let '(local_data, events) := load_local_geojson fs LOCAL_FILE in
  match local_data with
  | Some doc =>
      ({| checked_local_file := checked_local_file s; stored := Some doc |},
       events ++ [Reloaded; Rerun])
  | None => (s, events ++ [ReloadFailed])
  end.

(** The file accesses among the events. *)
Definition file_accesses (events : list local_event) : list local_event :=
  List.filter (fun e => match e with PathExists _ | OpenFile _ => true | _ => false end)
              events.

End LocalFile.

(** * Part II: proofs *)

(** ** Geometry policy *)

Section GeometryFacts.
Import Geometry.
Local Open Scope Q_scope.

Lemma radius_small (d : Q) :
  d <= 5 -> calculate_protection_radius d = 5.
Proof.
  intros Hd. unfold calculate_protection_radius.
  apply Qle_bool_iff in Hd. now rewrite Hd.
Qed.

Lemma radius_large (d : Q) :
  5 < d -> calculate_protection_radius d = 5 + (d - 5).
Proof.
  intros Hd. unfold calculate_protection_radius.
  destruct (Qle_bool d 5) eqn:E; [|reflexivity].
  apply Qle_bool_iff in E. exfalso. apply (Qlt_not_le _ _ Hd E).
Qed.

(** Every diameter falls in exactly one branch of the policy. *)
Lemma radius_cases (d : Q) :
  (d <= 5 /\ calculate_protection_radius d = 5) \/
  (5 < d /\ calculate_protection_radius d = 5 + (d - 5)).
Proof.
  destruct (Qlt_le_dec 5 d) as [H|H].
  - right. split; [exact H | now apply radius_large].
  - left. split; [exact H | now apply radius_small].
Qed.

Lemma radius_monotone (d1 d2 : Q) :
  d1 <= d2 ->
  calculate_protection_radius d1 <= calculate_protection_radius d2.
Proof.
  intros Hle.
  destruct (radius_cases d1) as [[H1 ->]|[H1 ->]];
    destruct (radius_cases d2) as [[H2 ->]|[H2 ->]]; lra.
Qed.

(** Above the threshold the radius grows strictly with the diameter. *)
Lemma radius_strictly_increasing (d1 d2 : Q) :
  5 < d1 -> d1 < d2 ->
  calculate_protection_radius d1 < calculate_protection_radius d2.
Proof.
  intros H1 H12.
  rewrite (radius_large d1 H1), (radius_large d2) by lra. lra.
Qed.

(** The radius never moves further than the diameter does. *)
Lemma radius_lipschitz (d1 d2 : Q) :
  Qabs (calculate_protection_radius d1 - calculate_protection_radius d2)
  <= Qabs (d1 - d2).
Proof.
  destruct (radius_cases d1) as [[H1 ->]|[H1 ->]];
    destruct (radius_cases d2) as [[H2 ->]|[H2 ->]];
    apply Qabs_case; intros; apply Qabs_case; intros; lra.
Qed.

(** C7.  The protection radius is 5 for every diameter of at most 5 and
    [5 + (d - 5)] for every larger diameter [d]; it is a function into the
    numbers, with no error result; it is monotonic non-decreasing; both
    branches give exactly 5 at the diameter 5, and the function is
    continuous there. *)
Theorem calculate_protection_radius_policy :
  (forall d, d <= 5 -> calculate_protection_radius d = 5) /\
  (forall d, 5 < d -> calculate_protection_radius d = 5 + (d - 5)) /\
  (forall d, exists r : Q, calculate_protection_radius d = r) /\
  (forall d1 d2, d1 <= d2 ->
     calculate_protection_radius d1 <= calculate_protection_radius d2) /\
  (calculate_protection_radius 5 = 5 /\ 5 + (5 - 5) = 5) /\
  (forall eps, 0 < eps -> exists delta, 0 < delta /\
     forall d, Qabs (d - 5) < delta ->
       Qabs (calculate_protection_radius d - calculate_protection_radius 5) < eps).
Proof.
  split; [exact radius_small|].
  split; [exact radius_large|].
  split; [intros d; eexists; reflexivity|].
  split; [exact radius_monotone|].
  split; [split; reflexivity|].
  intros eps Heps. exists eps. split; [exact Heps|].
  intros d Hd.
  eapply Qle_lt_trans; [apply radius_lipschitz | exact Hd].
Qed.

(** C9.  Whatever the diameter, zero and negative ones included, the
    radius is at least the 5-foot minimum, hence positive. *)
Theorem calculate_protection_radius_minimum :
  forall d : Q,
    5 <= calculate_protection_radius d /\ 0 < calculate_protection_radius d.
Proof.
  intros d.
  destruct (radius_cases d) as [[H ->]|[H ->]]; split; lra.
Qed.

Example radius_of_zero : calculate_protection_radius 0 = 5.
Proof. reflexivity. Qed.

Example radius_of_negative : calculate_protection_radius (-3) = 5.
Proof. reflexivity. Qed.

Example radius_of_six : calculate_protection_radius 6 == 6.
Proof. vm_compute. reflexivity. Qed.

Example meters_of_six_feet : Geometry.feet_to_meters 6 == 18288 # 10000.
Proof. vm_compute. reflexivity. Qed.

End GeometryFacts.

(** ** Feature normalizer *)

Section NormalizerFacts.
Import Py Normalizer NormalizerSpec Samples.

Lemma dict_get_first_present (props : gmap string json) (k1 k2 : string) (dflt : json) :
  dict_get props k1 (dict_get props k2 dflt) = first_present props [k1; k2] dflt.
Proof.
  unfold dict_get. simpl.
  destruct (props !! k1); [reflexivity|]. simpl.
  destruct (props !! k2); reflexivity.
Qed.

Lemma dict_get_absent (props : gmap string json) (k1 k2 : string) (dflt : json) :
  props !! k1 = None -> props !! k2 = None ->
  dict_get props k1 (dict_get props k2 dflt) = dflt.
Proof. intros H1 H2. unfold dict_get. now rewrite H1, H2. Qed.

(** A feature is normalized exactly when it has properties and at least
    two coordinates; the record is then made of the first two coordinates
    and of the six lookups. *)
Lemma process_feature_inr (f : feature) (r : tree_record) :
  process_feature f = inr r ->
  exists props g coords c0 c1,
    properties f = Some props /\ geometry f = Some g /\
    coordinates g = Some coords /\ coords !! 0%nat = Some c0 /\
    coords !! 1%nat = Some c1 /\
    r = {| longitude := c0; latitude := c1;
           diameter := dict_get props "DIAMETER" (dict_get props "diameter" (JNum 0));
           species_common :=
             dict_get props "SPP_COM" (dict_get props "species_common" (JStr "Unknown"));
           species_botanical :=
             dict_get props "SPP_BOT" (dict_get props "species_botanical" (JStr "Unknown"));
           status := dict_get props "STATUS" (dict_get props "status" (JStr "Unknown"));
           site_id := dict_get props "site_id" (dict_get props "OBJECTID" (JStr "Unknown"));
           object_id := dict_get props "OBJECTID" (dict_get props "object_id" JNull) |}.
Proof.
  unfold process_feature. intros H.
  destruct (geometry f) as [g|]; [|discriminate].
  destruct (coordinates g) as [coords|] eqn:Hc; [|discriminate].
  destruct (coords !! 0%nat) as [c0|] eqn:H0; [|discriminate].
  destruct (coords !! 1%nat) as [c1|] eqn:H1; [|discriminate].
  destruct (properties f) as [props|]; [|discriminate].
  injection H as <-. exists props, g, coords, c0, c1. repeat split; assumption.
Qed.

Lemma malformed_geometry_fails (f : feature) :
  malformed_geometry f = true -> exists e, process_feature f = inl e.
Proof.
  unfold malformed_geometry, process_feature.
  destruct (geometry f) as [[[coords|]]|]; simpl; intros H; eauto.
  destruct coords as [|c0 [|c1 coords]]; simpl in *; try discriminate; eauto.
Qed.

Lemma well_formed_succeeds (f : feature) (props : gmap string json) :
  malformed_geometry f = false -> properties f = Some props ->
  exists r, process_feature f = inr r.
Proof.
  unfold malformed_geometry, process_feature. intros H ->.
  destruct (geometry f) as [[[coords|]]|]; simpl in *; try discriminate.
  destruct coords as [|c0 [|c1 coords]]; simpl in *; try discriminate; eauto.
Qed.

(** The loop returns rows only if every remaining feature is normalized,
    and then appends their records in order. *)
Lemma process_loop_inr (todo : list feature) :
  forall rows out,
    process_loop todo rows = inr out ->
    exists rs, out = rows ++ rs /\
               Forall2 (fun f r => process_feature f = inr r) todo rs.
Proof.
  induction todo as [|f todo IH]; simpl; intros rows out H.
  - injection H as <-. exists []. split; [now rewrite app_nil_r | constructor].
  - destruct (process_feature f) as [e|row] eqn:Hf; [discriminate|].
    destruct (IH _ _ H) as (rs & -> & Hall).
    exists (row :: rs). split; [now rewrite <- app_assoc | now constructor].
Qed.

Lemma process_loop_all (todo : list feature) :
  forall rows rs,
    Forall2 (fun f r => process_feature f = inr r) todo rs ->
    process_loop todo rows = inr (rows ++ rs).
Proof.
  induction todo as [|f todo IH]; intros rows rs Hall; inversion Hall; subst; simpl.
  - now rewrite app_nil_r.
  - rewrite H1, (IH _ _ H3), <- app_assoc. reflexivity.
Qed.

(** One failing feature is enough for the loop to return no rows. *)
Lemma process_loop_fails (todo : list feature) (f : feature) :
  f ∈ todo -> (exists e, process_feature f = inl e) ->
  forall rows, exists e, process_loop todo rows = inl e.
Proof.
  intros Hin [e He].
  induction todo as [|f' todo IH]; intros rows; [inversion Hin|].
  simpl. destruct (process_feature f') as [e'|row] eqn:Hf'; [eauto|].
  apply IH. inversion Hin; subst; [congruence | assumption].
Qed.

(** C5, as the specification states it, fails on the code: the sample
    collection holds two well-formed features around a feature whose
    coordinates have one component, and its normalization raises
    [IndexError] instead of returning the records of the other two. *)
Lemma malformed_feature_drops_collection :
  (exists r, process_feature honeylocust = inr r) /\
  (exists r, process_feature both_spellings = inr r) /\
  malformed_geometry short_point = true /\
  process_geojson_data mixed_collection = inl IndexError.
Proof.
  split; [eexists; reflexivity|].
  split; [eexists; reflexivity|].
  split; reflexivity.
Qed.

(** C5, amended.  Normalizing a feature fails when its coordinate pair is
    missing or has fewer than two components.  [process_geojson_data] does
    not isolate the failure: a collection that holds such a feature yields
    no record at all, and whenever records are returned there is one per
    feature, in order, each the normalization of its feature. *)
Theorem malformed_geometry_aborts_collection :
  forall fc : feature_collection,
    (forall f, malformed_geometry f = true -> exists e, process_feature f = inl e) /\
    ((exists f, f ∈ features fc /\ malformed_geometry f = true) ->
       exists e, process_geojson_data fc = inl e) /\
    (forall rows, process_geojson_data fc = inr rows ->
       Forall2 (fun f r => process_feature f = inr r) (features fc) rows).
Proof.
  intros fc. split; [exact malformed_geometry_fails|]. split.
  - intros (f & Hin & Hbad). unfold process_geojson_data.
    apply (process_loop_fails _ f Hin). now apply malformed_geometry_fails.
  - intros rows H. unfold process_geojson_data in H.
    destruct (process_loop_inr _ _ _ H) as (rs & -> & Hall). exact Hall.
Qed.

(** C8.  Each field of a normalized record is the value of the first
    present key of its candidate list (the upper-case name, then the
    lower-case one; for the site identifier [site_id], then [OBJECTID]),
    or the field's default.  In particular the diameter is 0 when neither
    [DIAMETER] nor [diameter] is present, and the site identifier is
    ["Unknown"] when neither [site_id] nor [OBJECTID] is. *)
Theorem normalization_fallbacks (f : feature) (r : tree_record) :
  process_feature f = inr r ->
  exists props, properties f = Some props /\
    diameter r = first_present props ["DIAMETER"; "diameter"] (JNum 0) /\
    species_common r =
      first_present props ["SPP_COM"; "species_common"] (JStr "Unknown") /\
    species_botanical r =
      first_present props ["SPP_BOT"; "species_botanical"] (JStr "Unknown") /\
    status r = first_present props ["STATUS"; "status"] (JStr "Unknown") /\
    site_id r = first_present props ["site_id"; "OBJECTID"] (JStr "Unknown") /\
    object_id r = first_present props ["OBJECTID"; "object_id"] JNull /\
    (props !! "DIAMETER" = None -> props !! "diameter" = None ->
       diameter r = JNum 0) /\
    (props !! "site_id" = None -> props !! "OBJECTID" = None ->
       site_id r = JStr "Unknown").
Proof.
  intros H.
  destruct (process_feature_inr f r H) as (props & g & coords & c0 & c1 & Hp & _ & _ & _ & _ & ->).
  exists props. split; [exact Hp|]. simpl.
  repeat split; try apply dict_get_first_present.
  - intros H1 H2. now apply dict_get_absent.
  - intros H1 H2. now apply dict_get_absent.
Qed.

Lemma normalization_fallbacks_witness :
  exists r, process_feature bare_tree = inr r /\
            diameter r = JNum 0 /\ site_id r = JStr "Unknown".
Proof.
  destruct (process_feature bare_tree) as [e|r] eqn:E; [vm_compute in E; discriminate|].
  exists r. split; [reflexivity|].
  destruct (normalization_fallbacks bare_tree r E)
    as (props & Hp & _ & _ & _ & _ & _ & _ & Hd & Hs).
  injection Hp as <-. split; [apply Hd | apply Hs]; reflexivity.
Defined.

Example both_spellings_prefers_first_key :
  exists r, process_feature both_spellings = inr r /\
            diameter r = JNum 8 /\ site_id r = JNum 403144 /\ object_id r = JNum 7.
Proof. eexists. split; [reflexivity|]. repeat split. Qed.

Example honeylocust_end_to_end :
  exists r, process_feature honeylocust = inr r /\
            diameter r = JNum 6 /\ species_common r = JStr "Honeylocust" /\
            site_id r = JNum 1 /\
            (Geometry.calculate_protection_radius 6 == 6)%Q /\
            (Geometry.feet_to_meters (Geometry.calculate_protection_radius 6)
             == 18288 # 10000)%Q.
Proof.
  eexists. split; [reflexivity|]. repeat split; vm_compute; reflexivity.
Qed.

End NormalizerFacts.

(** ** Ranges, slices and chunks *)

Section ChunkFacts.
Import Py Client ClientSpec.

Lemma ceil_div_0 (c : nat) : 0 < c -> ceil_div 0 c = 0.
Proof. intros Hc. unfold ceil_div. apply Nat.div_small. lia. Qed.

Lemma ceil_div_step (n c : nat) :
  0 < c -> 0 < n -> ceil_div n c = S (ceil_div (n - c) c).
Proof.
  intros Hc Hn. unfold ceil_div.
  destruct (Nat.le_gt_cases n c) as [Hle|Hgt].
  - replace (n - c) with 0 by lia.
    rewrite (Nat.div_small (0 + (c - 1)) c) by lia.
    symmetry. apply (Nat.div_unique _ c 1 (n - 1)); lia.
  - replace (n + (c - 1)) with ((n - c + (c - 1)) + 1 * c) by lia.
    rewrite Nat.div_add by lia. lia.
Qed.

(** [ceil_div] is the least number of chunks of size [c] that cover [n]. *)
Lemma ceil_div_covers (n c : nat) : 0 < c -> n <= ceil_div n c * c.
Proof.
  intros Hc. unfold ceil_div.
  pose proof (Nat.div_mod_eq (n + (c - 1)) c) as E.
  pose proof (Nat.mod_upper_bound (n + (c - 1)) c ltac:(lia)) as B.
  nia.
Qed.

Lemma ceil_div_tight (n c : nat) : 0 < c -> 0 < n -> (ceil_div n c - 1) * c < n.
Proof.
  intros Hc Hn. unfold ceil_div.
  pose proof (Nat.div_mod_eq (n + (c - 1)) c) as E.
  pose proof (Nat.mod_upper_bound (n + (c - 1)) c ltac:(lia)) as B.
  nia.
Qed.

(** With a short last page the ceiling is one more than the quotient. *)
Lemma ceil_div_inexact (n c : nat) :
  0 < c -> n mod c <> 0 -> ceil_div n c = n / c + 1.
Proof.
  intros Hc Hr. unfold ceil_div.
  pose proof (Nat.div_mod_eq n c) as E.
  pose proof (Nat.mod_upper_bound n c ltac:(lia)) as B.
  symmetry. apply (Nat.div_unique _ c _ (n mod c - 1)); nia.
Qed.

Lemma ceil_div_exact (n c : nat) :
  0 < c -> n mod c = 0 -> ceil_div n c = n / c.
Proof.
  intros Hc Hr. unfold ceil_div.
  pose proof (Nat.div_mod_eq n c) as E.
  symmetry. apply (Nat.div_unique _ c _ (c - 1)); nia.
Qed.

(** The iterator of [range] yields the multiples of the step, as many as
    the ceiling of the span over the step. *)
Lemma range_from_multiples (stop step : nat) :
  0 < step ->
  forall fuel start,
    stop - start <= fuel ->
    range_from fuel start stop step =
    map (fun k => start + k * step) (seq 0 (ceil_div (stop - start) step)).
Proof.
  intros Hstep. induction fuel as [|fuel IH]; intros start Hfuel.
  - replace (stop - start) with 0 by lia. now rewrite ceil_div_0.
  - simpl. destruct (start <? stop) eqn:E.
    + apply Nat.ltb_lt in E.
      rewrite (ceil_div_step (stop - start) step) by lia.
      rewrite IH by lia. simpl. f_equal; [lia|].
      replace (stop - (start + step)) with (stop - start - step) by lia.
      rewrite <- seq_shift, map_map. apply map_ext. intros k. lia.
    + apply Nat.ltb_ge in E.
      replace (stop - start) with 0 by lia. now rewrite ceil_div_0.
Qed.

Lemma range_multiples (n step : nat) :
  0 < step ->
  range 0 n step = map (fun k => k * step) (seq 0 (ceil_div n step)).
Proof.
  intros Hstep. unfold range.
  rewrite (range_from_multiples n step Hstep (n - 0) 0) by lia.
  now rewrite Nat.sub_0_r.
Qed.

Lemma slice_take_drop {A : Type} (l : list A) (i c : nat) :
  slice l i (i + c) = take c (drop i l).
Proof. unfold slice. f_equal. lia. Qed.

(** The chunks are the successive windows of [size] elements. *)
Lemma chunks_of_windows (size : nat) (ids : list Z) :
  0 < size ->
  chunks_of size ids =
  map (fun k => take size (drop (k * size) ids))
      (seq 0 (ceil_div (length ids) size)).
Proof.
  intros Hsize. unfold chunks_of.
  rewrite range_multiples by assumption. rewrite map_map.
  apply map_ext. intros k. apply slice_take_drop.
Qed.

Lemma length_chunks_of (size : nat) (ids : list Z) :
  0 < size -> length (chunks_of size ids) = ceil_div (length ids) size.
Proof.
  intros Hsize. rewrite chunks_of_windows by assumption.
  now rewrite length_map, length_seq.
Qed.

Lemma chunks_of_lookup (size : nat) (ids : list Z) (k : nat) :
  0 < size -> k < ceil_div (length ids) size ->
  chunks_of size ids !! k = Some (take size (drop (k * size) ids)).
Proof.
  intros Hsize Hk. rewrite chunks_of_windows by assumption.
  rewrite list_lookup_fmap, lookup_seq_lt by assumption. reflexivity.
Qed.

Lemma windows_concat (size : nat) (ids : list Z) (m : nat) :
  concat (map (fun k => take size (drop (k * size) ids)) (seq 0 m)) =
  take (m * size) ids.
Proof.
  induction m as [|m IH]; [reflexivity|].
  rewrite seq_S, map_app, concat_app, IH. simpl.
  rewrite app_nil_r, take_take_drop. f_equal. lia.
Qed.

Lemma concat_chunks_of (size : nat) (ids : list Z) :
  0 < size -> concat (chunks_of size ids) = ids.
Proof.
  intros Hsize. rewrite chunks_of_windows, windows_concat by assumption.
  apply take_ge. now apply ceil_div_covers.
Qed.

Lemma chunks_of_bounded (size : nat) (ids : list Z) :
  0 < size -> Forall (fun chunk => length chunk <= size) (chunks_of size ids).
Proof.
  intros Hsize. rewrite chunks_of_windows by assumption.
  apply Forall_forall. intros chunk Hin.
  apply list_elem_of_In, in_map_iff in Hin. destruct Hin as (k & <- & _).
  rewrite length_take. lia.
Qed.

(** No chunk is empty: the last window still starts inside the list. *)
Lemma chunks_of_nonempty (size : nat) (ids : list Z) :
  0 < size -> Forall (fun chunk => 0 < length chunk) (chunks_of size ids).
Proof.
  intros Hsize. rewrite chunks_of_windows by assumption.
  apply Forall_forall. intros chunk Hin.
  apply list_elem_of_In, in_map_iff in Hin. destruct Hin as (k & <- & Hk).
  apply in_seq in Hk.
  assert (0 < length ids) as Hpos.
  { destruct ids; simpl; [|lia]. rewrite ceil_div_0 in Hk by assumption. lia. }
  pose proof (ceil_div_tight (length ids) size Hsize Hpos).
  rewrite length_take, length_drop. nia.
Qed.

(** The element at position [j] of chunk [k] is the element of the input
    at position [k * size + j]: chunks are contiguous and no position of
    the input belongs to two of them. *)
Lemma chunks_of_position (size : nat) (ids chunk : list Z) (k j : nat) (x : Z) :
  0 < size ->
  chunks_of size ids !! k = Some chunk -> chunk !! j = Some x ->
  j < size /\ ids !! (k * size + j) = Some x.
Proof.
  intros Hsize Hk Hj.
  assert (k < ceil_div (length ids) size) as Hlt.
  { apply lookup_lt_Some in Hk. now rewrite length_chunks_of in Hk. }
  rewrite chunks_of_lookup in Hk by assumption. injection Hk as <-.
  apply lookup_take_Some in Hj. destruct Hj as [Hj Hlt'].
  split; [exact Hlt'|]. now rewrite lookup_drop in Hj.
Qed.

Example chunks_of_250 :
  map length (id_chunks (map Z.of_nat (seq 1 250))) = [100; 100; 50].
Proof. reflexivity. Qed.

Example chunks_of_200 :
  map length (id_chunks (map Z.of_nat (seq 1 200))) = [100; 100].
Proof. reflexivity. Qed.

End ChunkFacts.

(** ** The event log *)

Section WorldFacts.
Import Py Effects ClientSpec.

Lemma http_requests_app (w1 w2 : world) :
  http_requests (w1 ++ w2) = http_requests w1 ++ http_requests w2.
Proof. apply omap_app. Qed.

Lemma requests_made_app (w1 w2 : world) :
  requests_made (w1 ++ w2) = requests_made w1 + requests_made w2.
Proof. unfold requests_made. now rewrite http_requests_app, length_app. Qed.

Lemma progress_updates_app (w1 w2 : world) :
  progress_updates (w1 ++ w2) = progress_updates w1 ++ progress_updates w2.
Proof. apply omap_app. Qed.

Lemma errors_app (w1 w2 : world) :
  errors (w1 ++ w2) = errors w1 ++ errors w2.
Proof. apply omap_app. Qed.

Lemma exchanges_app (w1 w2 : world) :
  exchanges (w1 ++ w2) = exchanges w1 ++ exchanges w2.
Proof. apply omap_app. Qed.

Lemma pages_received_app (w1 w2 : world) :
  pages_received (w1 ++ w2) = pages_received w1 ++ pages_received w2.
Proof. unfold pages_received. now rewrite exchanges_app, map_app. Qed.

Lemma http_requests_exchanges (w : world) :
  http_requests w = map fst (exchanges w).
Proof.
  induction w as [|e w IH]; [reflexivity|].
  destruct e; simpl; try exact IH. now rewrite <- IH.
Qed.

Lemma chunk_results_cons (svc : service) (n : nat) (out : string)
    (chunk : list Z) (chunks : list (list Z)) :
  chunk_results svc n out (chunk :: chunks) =
  svc n (FeatureQuery chunk out) :: chunk_results svc (S n) out chunks.
Proof.
  unfold chunk_results. rewrite imap_cons, Nat.add_0_r. f_equal.
  apply imap_ext. intros j c _. simpl. f_equal. lia.
Qed.

Lemma length_chunk_results (svc : service) (n : nat) (out : string)
    (chunks : list (list Z)) :
  length (chunk_results svc n out chunks) = length chunks.
Proof. unfold chunk_results. apply length_imap. Qed.

(** Failed chunks carry no feature, so leaving them out changes nothing. *)
Lemma chunk_features_succeeded (results : list http_result) :
  concat (map chunk_features (filter (fun r => succeeded r = true) results)) =
  concat (map chunk_features results).
Proof.
  induction results as [|[e|data] results IH]; [reflexivity| |].
  - rewrite filter_cons_False by (simpl; discriminate). exact IH.
  - rewrite filter_cons_True by reflexivity. simpl. now rewrite IH.
Qed.

End WorldFacts.

(** ** The batched feature fetch *)

Section FeatureFetchFacts.
Import Py Normalizer Effects Client ClientSpec.
Variable svc : service.

(** One pass over [chunks]: every chunk is requested, in order, whatever
    the earlier requests came to; the features of the answers are appended
    in that order; when [total] counts the chunks, every answered request is
    followed by a progress update. *)
Lemma get_features_loop_run (out : string) (total : nat) (chunks : list (list Z)) :
  forall i acc w,
  exists evs,
    get_features_loop svc total i chunks out acc w =
      (acc ++ concat (map chunk_features
                        (chunk_results svc (requests_made w) out chunks)),
       w ++ evs) /\
    http_requests evs = map (fun chunk => FeatureQuery chunk out) chunks /\
    (i + length chunks = total ->
       length (progress_updates evs) =
       length (filter (fun r => succeeded r = true)
                 (chunk_results svc (requests_made w) out chunks))).
Proof.
  induction chunks as [|chunk chunks IH]; intros i acc w.
  - exists []. simpl. rewrite !app_nil_r. auto.
  - rewrite chunk_results_cons. simpl. io_step.
    rewrite requests_made_app, Nat.add_0_r.
    set (res := svc (requests_made w) (FeatureQuery chunk out)).
    set (w1 := (w ++ [StText (MsgProcessingBatch (i + 1) total (length chunk))])
                 ++ [HttpGet (FeatureQuery chunk out) res]).
    assert (requests_made w1 = S (requests_made w)) as Hn.
    { unfold w1, requests_made, http_requests.
      rewrite !omap_app, !length_app. simpl. lia. }
    destruct res as [e|data] eqn:Hres.
    + destruct (IH (i + 1) acc (w1 ++ [StError (if is_request_exception e
                         then MsgErrorFetchingFeatures (i + 1) e
                         else MsgErrorProcessingFeatures (i + 1) e)]))
        as (evs & Hrun & Hreq & Hprog).
      rewrite requests_made_app, Hn, Nat.add_0_r in Hrun, Hprog.
      eexists. split; [|split].
      * rewrite Hrun. unfold w1. rewrite <- !app_assoc. simpl. reflexivity.
      * simpl. now rewrite Hreq.
      * intros Htot. rewrite filter_cons_False by (simpl; discriminate).
        simpl in *. apply Hprog. lia.
    + set (acc' := match resp_features data with
                   | Some fs => acc ++ fs
                   | None => acc
                   end).
      assert (acc' = acc ++ default [] (resp_features data)) as Hacc.
      { unfold acc'. destruct (resp_features data); simpl; [reflexivity|].
        now rewrite app_nil_r. }
      destruct total as [|total']; simpl.
      * destruct (IH (i + 1) acc' (w1 ++ [StError (MsgErrorProcessingFeatures (i + 1)
                                                   ZeroDivisionError)]))
          as (evs & Hrun & Hreq & Hprog).
        rewrite requests_made_app, Hn, Nat.add_0_r in Hrun, Hprog.
        eexists. split; [|split].
        -- rewrite Hrun, Hacc. unfold w1. rewrite <- !app_assoc. simpl. reflexivity.
        -- simpl. now rewrite Hreq.
        -- intros Htot. simpl in Htot. lia.
      * destruct (IH (i + 1) acc'
                    ((w1 ++ [StProgress (Qmake (Z.of_nat (i + 1)) (Pos.of_nat (S total')))])
                       ++ [Sleep (courtesy_delay (i + 1))]))
          as (evs & Hrun & Hreq & Hprog).
        rewrite !requests_made_app, Hn in Hrun, Hprog. simpl in Hrun, Hprog.
        rewrite !Nat.add_0_r in Hrun, Hprog.
        eexists. split; [|split].
        -- rewrite Hrun, Hacc. unfold w1. rewrite <- !app_assoc. simpl. reflexivity.
        -- simpl. now rewrite Hreq.
        -- intros Htot. simpl. f_equal. apply Hprog. lia.
Qed.

Lemma FEATURE_BATCH_SIZE_pos : 0 < FEATURE_BATCH_SIZE.
Proof. unfold FEATURE_BATCH_SIZE. lia. Qed.

(** The whole of [get_features_by_ids]: the collection returned, the
    requests sent and the progress shown. *)
Lemma get_features_by_ids_run (object_ids : list Z) (out : string) (w : world) :
  exists evs,
    get_features_by_ids svc object_ids out w =
      ({| fc_type := "FeatureCollection";
          features :=
            concat (map chunk_features
                      (chunk_results svc (requests_made w) out (id_chunks object_ids))) |},
       w ++ evs) /\
    http_requests evs = map (fun chunk => FeatureQuery chunk out) (id_chunks object_ids) /\
    length (progress_updates evs) =
      length (filter (fun r => succeeded r = true)
                (chunk_results svc (requests_made w) out (id_chunks object_ids))).
Proof.
  unfold get_features_by_ids. io_step.
  destruct (get_features_loop_run out (length (id_chunks object_ids))
              (id_chunks object_ids) 0 [] ((w ++ [StProgressNew]) ++ [StEmpty]))
    as (evs & Hrun & Hreq & Hprog).
  assert (requests_made ((w ++ [StProgressNew]) ++ [StEmpty]) = requests_made w) as Hn.
  { unfold requests_made, http_requests. rewrite !omap_app, !length_app. simpl. lia. }
  rewrite Hn in Hrun, Hprog. rewrite Hrun. simpl.
  exists ([StProgressNew; StEmpty] ++ evs ++
          [StText (MsgProcessedFeatures
                     (length (concat (map chunk_features
                        (chunk_results svc (requests_made w) out (id_chunks object_ids))))));
           StProgressEmpty]).
  split; [|split].
  - f_equal. rewrite <- !app_assoc. reflexivity.
  - rewrite !http_requests_app. simpl. now rewrite app_nil_r.
  - rewrite !progress_updates_app, !length_app. simpl.
    rewrite Hprog by reflexivity. lia.
Qed.

(** C2.  A failed chunk request does not stop the retrieval.  Whatever the
    service answers, and so whichever chunk requests fail, every chunk is
    requested, in order, and the collection returned holds exactly the
    features of the chunks whose request succeeded, in chunk order. *)
Theorem failed_chunks_are_skipped :
  forall (object_ids : list Z) (out_fields : string) (w : world),
  exists evs,
    get_features_by_ids svc object_ids out_fields w =
      ({| fc_type := "FeatureCollection";
          features :=
            concat (map chunk_features
                      (filter (fun r => succeeded r = true)
                         (chunk_results svc (requests_made w) out_fields
                            (id_chunks object_ids)))) |},
       w ++ evs) /\
    http_requests evs =
      map (fun chunk => FeatureQuery chunk out_fields) (id_chunks object_ids).
Proof.
  intros object_ids out_fields w.
  destruct (get_features_by_ids_run object_ids out_fields w) as (evs & Hrun & Hreq & _).
  exists evs. split; [|exact Hreq].
  rewrite Hrun. now rewrite chunk_features_succeeded.
Qed.

(** C3.  The feature requests partition the identifiers: there are
    [ceil(M / 100)] of them for [M] identifiers, the request number [k]
    carries the window of at most 100 identifiers that starts at position
    [100 * k], the windows put end to end give back the input, and the
    identifier at position [j] of window [k] is the one at position
    [100 * k + j] of the input, so no position is sent twice. *)
Theorem feature_requests_partition_ids :
  forall (object_ids : list Z) (out_fields : string) (w : world),
  exists evs,
    snd (get_features_by_ids svc object_ids out_fields w) = w ++ evs /\
    http_requests evs =
      map (fun chunk => FeatureQuery chunk out_fields) (id_chunks object_ids) /\
    length (http_requests evs) = ceil_div (length object_ids) FEATURE_BATCH_SIZE /\
    Forall (fun chunk => length chunk <= FEATURE_BATCH_SIZE) (id_chunks object_ids) /\
    concat (id_chunks object_ids) = object_ids /\
    (forall k, k < ceil_div (length object_ids) FEATURE_BATCH_SIZE ->
       id_chunks object_ids !! k =
       Some (take FEATURE_BATCH_SIZE (drop (k * FEATURE_BATCH_SIZE) object_ids))) /\
    (forall k j chunk x,
       id_chunks object_ids !! k = Some chunk -> chunk !! j = Some x ->
       j < FEATURE_BATCH_SIZE /\
       object_ids !! (k * FEATURE_BATCH_SIZE + j) = Some x).
Proof.
  intros object_ids out_fields w.
  pose proof FEATURE_BATCH_SIZE_pos as Hpos.
  destruct (get_features_by_ids_run object_ids out_fields w) as (evs & Hrun & Hreq & _).
  exists evs. rewrite Hrun. split; [reflexivity|]. split; [exact Hreq|].
  split; [|split; [|split; [|split]]].
  - rewrite Hreq, length_map. now apply length_chunks_of.
  - now apply chunks_of_bounded.
  - now apply concat_chunks_of.
  - intros k Hk. now apply chunks_of_lookup.
  - intros k j chunk x Hk Hj. now apply (chunks_of_position _ _ chunk).
Qed.

(** C10.  With no identifier, [get_features_by_ids] sends no request and
    returns the empty collection; the loop body does not run, so no
    progress value is computed.  With identifiers there is at least one
    chunk, so the division by the number of chunks is defined, and every
    answered request is followed by its progress update. *)
Theorem empty_identifier_list_fetches_nothing :
  forall (out_fields : string) (w : world),
    get_features_by_ids svc [] out_fields w =
      ({| fc_type := "FeatureCollection"; features := [] |},
       w ++ [StProgressNew; StEmpty; StText (MsgProcessedFeatures 0);
             StProgressEmpty]) /\
    http_requests (snd (get_features_by_ids svc [] out_fields w)) = http_requests w /\
    progress_updates (snd (get_features_by_ids svc [] out_fields w)) =
      progress_updates w /\
    (forall (object_ids : list Z) (i : nat),
       object_ids <> [] ->
       exists q, truediv (i + 1) (length (id_chunks object_ids)) = inr q) /\
    (forall (object_ids : list Z),
       exists evs,
         snd (get_features_by_ids svc object_ids out_fields w) = w ++ evs /\
         length (progress_updates evs) =
         length (filter (fun r => succeeded r = true)
                   (chunk_results svc (requests_made w) out_fields
                      (id_chunks object_ids)))).
Proof.
  intros out_fields w.
  assert (get_features_by_ids svc [] out_fields w =
          ({| fc_type := "FeatureCollection"; features := [] |},
           w ++ [StProgressNew; StEmpty; StText (MsgProcessedFeatures 0);
                 StProgressEmpty])) as Hrun.
  { unfold get_features_by_ids. io_step. rewrite <- !app_assoc. reflexivity. }
  rewrite Hrun. simpl. split; [reflexivity|].
  split; [rewrite http_requests_app; apply app_nil_r|].
  split; [rewrite progress_updates_app; apply app_nil_r|]. split.
  - intros object_ids i Hne. unfold id_chunks.
    rewrite length_chunks_of by apply FEATURE_BATCH_SIZE_pos.
    destruct object_ids as [|x object_ids]; [congruence|].
    rewrite ceil_div_step by (pose proof FEATURE_BATCH_SIZE_pos; simpl; lia).
    simpl. eauto.
  - intros object_ids.
    destruct (get_features_by_ids_run object_ids out_fields w)
      as (evs & Hrun' & _ & Hprog).
    exists evs. rewrite Hrun'. split; [reflexivity | exact Hprog].
Qed.

End FeatureFetchFacts.

Section FailingChunks.
Import Py Normalizer Effects Client ClientSpec Services.

(** The same statement for a service described by the set of its failing
    requests: the chunks at the failing positions are left out, the others
    contribute their features. *)
Lemma failing_set_omits_chunks (fails : nat -> bool) (e : exn) (db : Z -> feature)
    (object_ids : list Z) (out : string) (w : world) :
  requests_made w = 0 ->
  features (fst (get_features_by_ids (chunk_service fails e db) object_ids out w)) =
  concat (imap (fun j chunk => if fails j then [] else map db chunk)
               (id_chunks object_ids)).
Proof.
  intros Hw.
  destruct (get_features_by_ids_run (chunk_service fails e db) object_ids out w)
    as (evs & -> & _). simpl. rewrite Hw. f_equal.
  unfold chunk_results. rewrite fmap_imap. apply imap_ext.
  intros j chunk _. simpl. destruct (fails j); reflexivity.
Qed.

(** The specification's test: chunk 2 of 4 fails, chunks 1, 3 and 4 still
    contribute; all four chunks are requested and one error is shown. *)
Example second_chunk_of_four_fails :
  let svc := chunk_service (fun n => n =? 1) RequestException tree_of_id in
  let run := get_features_by_ids svc (id_run 1 350) "*" [] in
  features (fst run) = map tree_of_id (id_run 1 100 ++ id_run 201 150) /\
  map (fun req => match req with FeatureQuery chunk _ => length chunk | _ => 0 end)
      (http_requests (snd run)) = [100; 100; 100; 50] /\
  errors (snd run) = [MsgErrorFetchingFeatures 2 RequestException].
Proof. vm_compute. repeat split. Qed.

End FailingChunks.

(** ** Identifier pagination *)

Section PaginationFacts.
Import Py Normalizer Effects Client ClientSpec.
Variable svc : service.

Lemma page_of_returns (data : response_json) (page : list Z) :
  resp_objectIds data = Some page -> page_of (Returns data) = page.
Proof. intros H. unfold page_of. now rewrite H. Qed.

Lemma full_page_returns (batch_size : nat) (data : response_json) (x : Z) (page : list Z) :
  resp_objectIds data = Some (x :: page) ->
  full_page batch_size (Returns data) = negb (length (x :: page) <? batch_size).
Proof. intros H. unfold full_page. now rewrite (page_of_returns data _ H). Qed.

(** Any finished run of the loop, against any service.  The identifiers
    returned are those already held followed by the pages received, in
    order; every request is an identifier query for [batch_size]
    identifiers whose offset is the starting offset plus the number of
    identifiers received before it; the last request is the only one whose
    answer is not a full page. *)
Lemma get_object_ids_loop_run (wc : string) (batch_size : nat) :
  forall fuel acc offset batch_count w ids w',
    get_object_ids_loop svc fuel wc batch_size acc offset batch_count w
      = (Some ids, w') ->
    exists evs init last,
      w' = w ++ evs /\
      ids = acc ++ concat (pages_received evs) /\
      http_requests evs =
        map (fun off => IdQuery wc off batch_size)
            (page_offsets offset (pages_received evs)) /\
      exchanges evs = init ++ [last] /\
      Forall (fun x => full_page batch_size (snd x) = true) init /\
      full_page batch_size (snd last) = false.
Proof.
  induction fuel as [|fuel IH]; intros acc offset batch_count w ids w' Hrun.
  - discriminate.
  - simpl in Hrun.
    unfold mbind, io_bind, mret, io_ret, emit, requests_get in Hrun. simpl in Hrun.
    remember (svc (requests_made (w ++ [StText (MsgFetchingIds (length acc))]))
                (IdQuery wc offset batch_size)) as res eqn:Hres.
    clear Hres. rewrite <- app_assoc in Hrun. simpl in Hrun.
    assert (forall page tail,
              page_of res = page -> full_page batch_size res = false ->
              ids = acc ++ page ->
              w' = w ++ [StText (MsgFetchingIds (length acc));
                         HttpGet (IdQuery wc offset batch_size) res] ++ tail ->
              exchanges tail = [] ->
              exists evs init last,
                w' = w ++ evs /\
                ids = acc ++ concat (pages_received evs) /\
                http_requests evs =
                  map (fun off => IdQuery wc off batch_size)
                      (page_offsets offset (pages_received evs)) /\
                exchanges evs = init ++ [last] /\
                Forall (fun x => full_page batch_size (snd x) = true) init /\
                full_page batch_size (snd last) = false) as Hstop.
    { intros page tail Hpage Hfull -> -> Htail.
      eexists _, [], (IdQuery wc offset batch_size, res).
      split; [reflexivity|].
      unfold pages_received. rewrite http_requests_exchanges.
      simpl. rewrite Htail. simpl. rewrite Hpage, app_nil_r.
      repeat split; auto. }
    destruct res as [e|data].
    + injection Hrun as <- <-.
      apply (Hstop [] [StError (if is_request_exception e
                                then MsgErrorFetchingIds offset e
                                else MsgErrorProcessingIds e)]);
        try reflexivity; try (now rewrite ?app_nil_r);
          now rewrite <- ?app_assoc.
    + destruct (resp_objectIds data) as [[|x page]|] eqn:Hids.
      * injection Hrun as <- <-.
        apply (Hstop [] []); unfold full_page, page_of; rewrite ?Hids;
          try reflexivity; try (now rewrite ?app_nil_r);
          now rewrite <- ?app_assoc.
      * destruct (length (x :: page) <? batch_size) eqn:Hshort.
        -- injection Hrun as <- <-.
           apply (Hstop (x :: page) []);
             [ now apply page_of_returns
             | now rewrite (full_page_returns _ _ _ _ Hids), Hshort
             | reflexivity | reflexivity | reflexivity ].
        -- apply IH in Hrun.
           destruct Hrun as (evs & init & last & -> & -> & Hreq & Hex & Hinit & Hlast).
           exists ([StText (MsgFetchingIds (length acc));
                    HttpGet (IdQuery wc offset batch_size) (Returns data);
                    Sleep (courtesy_delay (batch_count + 1))] ++ evs),
                  ((IdQuery wc offset batch_size, Returns data) :: init), last.
           split; [now rewrite <- !app_assoc|].
           change (pages_received
                     ([StText (MsgFetchingIds (length acc));
                       HttpGet (IdQuery wc offset batch_size) (Returns data);
                       Sleep (courtesy_delay (batch_count + 1))] ++ evs))
             with (page_of (Returns data) :: pages_received evs).
           rewrite (page_of_returns _ _ Hids).
           split; [simpl; now rewrite <- app_assoc|].
           split; [simpl; now rewrite Hreq|].
           split; [simpl; now rewrite Hex|].
           split; [|exact Hlast].
           constructor; [|exact Hinit].
           simpl. now rewrite (full_page_returns _ _ _ _ Hids), Hshort.
      * injection Hrun as <- <-.
        apply (Hstop [] []); unfold full_page, page_of; rewrite ?Hids;
          try reflexivity; try (now rewrite ?app_nil_r);
          now rewrite <- ?app_assoc.
Qed.

End PaginationFacts.

Section PagedService.
Import Py Normalizer Effects Client ClientSpec Services.

(** The loop against a well-behaved service that holds [q] full pages and
    [r] further identifiers, entered at the start of page [k]: it returns
    the identifiers from there on and asks for the pages [k], ..., [q]. *)
Lemma paged_loop_run (ids : list Z) (wc : string) (batch_size q r : nat) :
  0 < batch_size -> length ids = q * batch_size + r -> r < batch_size ->
  forall fuel k acc batch_count w,
    k <= q -> q - k < fuel ->
    exists evs,
      get_object_ids_loop (paged_service ids) fuel wc batch_size acc
        (k * batch_size) batch_count w
        = (Some (acc ++ drop (k * batch_size) ids), w ++ evs) /\
      http_requests evs =
        map (fun j => IdQuery wc (j * batch_size) batch_size) (seq k (q + 1 - k)) /\
      errors evs = [].
Proof.
  intros Hpos Hlen Hr.
  induction fuel as [|fuel IH]; intros k acc batch_count w Hk Hfuel; [lia|].
  simpl. io_step.
  destruct (take batch_size (drop (k * batch_size) ids)) as [|x page] eqn:Hpage.
  - assert (k = q /\ length ids <= k * batch_size) as [-> Hge].
    { apply (f_equal length) in Hpage.
      rewrite length_take, length_drop in Hpage. simpl in Hpage. nia. }
    eexists. split; [|split].
    + rewrite drop_ge, app_nil_r by exact Hge. rewrite <- app_assoc. reflexivity.
    + replace (q + 1 - q) with 1 by lia. reflexivity.
    + reflexivity.
  - assert (length (x :: page) = Nat.min batch_size (length ids - k * batch_size))
      as Hlp.
    { rewrite <- Hpage. now rewrite length_take, length_drop. }
    destruct (length (x :: page) <? batch_size) eqn:Hshort.
    + apply Nat.ltb_lt in Hshort.
      assert (k = q) as -> by nia.
      eexists. split; [|split].
      * rewrite <- Hpage, take_ge by (rewrite length_drop; lia).
        rewrite <- app_assoc. reflexivity.
      * replace (q + 1 - q) with 1 by lia. reflexivity.
      * reflexivity.
    + apply Nat.ltb_ge in Hshort.
      assert (k < q) as Hkq by nia.
      replace (k * batch_size + length (x :: page)) with (S k * batch_size) by lia.
      destruct (IH (S k) (acc ++ x :: page) (batch_count + 1)
                  (((w ++ [StText (MsgFetchingIds (length acc))]) ++
                    [HttpGet (IdQuery wc (k * batch_size) batch_size)
                       (Returns {| resp_objectIds := Some (x :: page);
                                   resp_features := None |})]) ++
                   [Sleep (courtesy_delay (batch_count + 1))]))
        as (evs & Hrun & Hreq & Herr); [lia | lia |].
      rewrite Hrun. eexists. split; [|split].
      * f_equal.
        -- f_equal. rewrite <- app_assoc. f_equal.
           rewrite <- Hpage.
           replace (S k * batch_size) with (k * batch_size + batch_size) by lia.
           rewrite <- drop_drop. apply take_drop.
        -- rewrite <- !app_assoc. reflexivity.
      * rewrite !http_requests_app, Hreq. simpl.
        replace (q + 1 - k) with (S (q + 1 - S k)) by lia. reflexivity.
      * rewrite !errors_app, Herr. reflexivity.
Qed.

End PagedService.

Section PaginationClaims.
Import Py Normalizer Effects Client ClientSpec Services.

Lemma id_offsets_map (wc : string) (batch_size : nat) (offs : list nat) :
  id_offsets (map (fun off => IdQuery wc off batch_size) offs) = offs.
Proof. induction offs as [|off offs IH]; simpl; [reflexivity | now rewrite IH]. Qed.

Lemma NoDup_multiples (batch_size m : nat) :
  0 < batch_size -> NoDup (map (fun k => k * batch_size) (seq 0 m)).
Proof.
  intros Hpos. apply NoDup_fmap_2_strong; [|apply NoDup_seq].
  intros j k _ _ H. nia.
Qed.

(** The whole of [get_object_ids] for a finished run against any
    service: the loop's events stand between the creation of the
    placeholder and the closing text. *)
Lemma get_object_ids_run (svc : service) (fuel : nat) (wc : string)
    (batch_size : nat) (w w' : world) (ids : list Z) :
  get_object_ids svc fuel wc batch_size w = (Some ids, w') ->
  exists evs init last,
    w' = w ++ [StEmpty] ++ evs ++ [StText (MsgRetrievedIds (length ids))] /\
    ids = concat (pages_received evs) /\
    http_requests evs =
      map (fun off => IdQuery wc off batch_size)
          (page_offsets 0 (pages_received evs)) /\
    exchanges evs = init ++ [last] /\
    Forall (fun x => full_page batch_size (snd x) = true) init /\
    full_page batch_size (snd last) = false.
Proof.
  unfold get_object_ids. io_step. intros Hrun.
  destruct (get_object_ids_loop svc fuel wc batch_size [] 0 0 (w ++ [StEmpty]))
    as [[ids'|] w1] eqn:Hloop; [|discriminate].
  injection Hrun as <- <-.
  destruct (get_object_ids_loop_run svc wc batch_size _ _ _ _ _ _ _ Hloop)
    as (evs & init & last & -> & Hids & Hreq & Hex & Hinit & Hlast).
  exists evs, init, last. simpl in Hids.
  split; [now rewrite <- !app_assoc|]. auto.
Qed.

(** Events that are no request leave the requests, pages and exchanges
    of a log unchanged. *)
Lemma framed_log (evs : list event) (m : message) :
  http_requests ([StEmpty] ++ evs ++ [StText m]) = http_requests evs /\
  exchanges ([StEmpty] ++ evs ++ [StText m]) = exchanges evs /\
  pages_received ([StEmpty] ++ evs ++ [StText m]) = pages_received evs /\
  errors ([StEmpty] ++ evs ++ [StText m]) = errors evs.
Proof.
  unfold pages_received.
  rewrite !http_requests_app, !exchanges_app, !errors_app. simpl.
  now rewrite !app_nil_r.
Qed.

(** C1.  Against a service that holds [N] identifiers and serves them in
    pages of [batch_size], [get_object_ids] returns exactly those
    identifiers in order.  It asks for the offsets 0, [batch_size],
    [2 * batch_size], ..., each once: [N / batch_size + 1] requests, which
    is [ceil(N / batch_size)] when the last page is short and one more
    than the quotient when [N] is a multiple of [batch_size] and the last
    page comes back empty.  Each offset is the number of identifiers
    received before it, and the request whose answer is short or empty is
    the last one. *)
Theorem pagination_is_complete (ids : list Z) (wc : string)
    (batch_size fuel : nat) (w : world) :
  0 < batch_size -> length ids / batch_size < fuel ->
  exists evs,
    get_object_ids (paged_service ids) fuel wc batch_size w = (Some ids, w ++ evs) /\
    http_requests evs =
      map (fun k => IdQuery wc (k * batch_size) batch_size)
          (seq 0 (length ids / batch_size + 1)) /\
    length (http_requests evs) =
      (if length ids mod batch_size =? 0 then length ids / batch_size + 1
       else ceil_div (length ids) batch_size) /\
    concat (pages_received evs) = ids /\
    id_offsets (http_requests evs) = page_offsets 0 (pages_received evs) /\
    NoDup (id_offsets (http_requests evs)) /\
    (exists init last,
       exchanges evs = init ++ [last] /\
       Forall (fun x => full_page batch_size (snd x) = true) init /\
       full_page batch_size (snd last) = false) /\
    errors evs = [].
Proof.
  intros Hpos Hfuel.
  pose proof (Nat.div_mod_eq (length ids) batch_size) as Hdiv.
  pose proof (Nat.mod_upper_bound (length ids) batch_size ltac:(lia)) as Hmod.
  destruct (paged_loop_run ids wc batch_size (length ids / batch_size)
              (length ids mod batch_size) Hpos ltac:(lia) Hmod
              fuel 0 [] 0 (w ++ [StEmpty]) ltac:(lia) ltac:(lia))
    as (evl & Hloop & Hreq & Herr).
  simpl in Hloop. rewrite Nat.sub_0_r in Hreq.
  assert (get_object_ids (paged_service ids) fuel wc batch_size w =
          (Some ids, w ++ [StEmpty] ++ evl ++ [StText (MsgRetrievedIds (length ids))]))
    as Hrun.
  { unfold get_object_ids. io_step. rewrite Hloop. simpl.
    now rewrite <- !app_assoc. }
  destruct (get_object_ids_run _ _ _ _ _ _ _ Hrun)
    as (evl' & init & last & Hw & Hids & Hreq' & Hex & Hinit & Hlast).
  apply app_inv_head, (app_inv_head [StEmpty]), app_inv_tail in Hw. subst evl'.
  destruct (framed_log evl (MsgRetrievedIds (length ids)))
    as (Fr & Fe & Fp & Ferr).
  exists ([StEmpty] ++ evl ++ [StText (MsgRetrievedIds (length ids))]).
  rewrite Fr, Fe, Fp, Ferr.
  split; [exact Hrun|]. split; [exact Hreq|].
  split; [|split; [|split; [|split; [|split]]]].
  - rewrite Hreq, length_map, length_seq.
    destruct (length ids mod batch_size =? 0) eqn:E; [reflexivity|].
    apply Nat.eqb_neq in E. symmetry. now apply ceil_div_inexact.
  - now symmetry.
  - now rewrite Hreq', id_offsets_map.
  - rewrite Hreq.
    rewrite <- (map_map (fun k => k * batch_size)
                        (fun off => IdQuery wc off batch_size)).
    rewrite id_offsets_map. now apply NoDup_multiples.
  - exists init, last. auto.
  - exact Herr.
Qed.

Lemma pagination_is_complete_witness :
  exists evs,
    get_object_ids (paged_service (id_run 1 5)) 3 "1=1" 2 [] =
      (Some (id_run 1 5), evs) /\
    length (http_requests evs) = 3.
Proof.
  destruct (pagination_is_complete (id_run 1 5) "1=1" 2 3 []
              ltac:(lia) ltac:(vm_compute; lia))
    as (evs & Hrun & _ & Hlen & _).
  exists evs. split; [exact Hrun | exact Hlen].
Defined.

(** The specification's end-to-end example: a page of 1000 identifiers,
    then an empty page; 1000 identifiers are returned after 2 requests. *)
Example thousand_then_empty :
  let run := get_object_ids (paged_service (id_run 1 1000)) 2 "1=1"
               OBJECT_ID_BATCH_SIZE [] in
  fst run = Some (id_run 1 1000) /\
  http_requests (snd run) = [IdQuery "1=1" 0 1000; IdQuery "1=1" 1000 1000].
Proof. vm_compute. split; reflexivity. Qed.

(** A short last page: 5 identifiers in pages of 2 take 3 requests. *)
Example five_in_pages_of_two :
  let run := get_object_ids (paged_service (id_run 1 5)) 3 "1=1" 2 [] in
  fst run = Some (id_run 1 5) /\
  id_offsets (http_requests (snd run)) = [0; 2; 4] /\
  pages_received (snd run) = [[1; 2]; [3; 4]; [5]]%Z.
Proof. vm_compute. repeat split. Qed.

End PaginationClaims.

(** ** Failure during identifier pagination *)

Section PaginationFailure.
Import Py Normalizer Effects Client ClientSpec Services.

Lemma scripted_service_page (done rest : list (list Z)) (page : list Z)
    (e : exn) (n : nat) (req : request) :
  n = length done ->
  scripted_service (done ++ page :: rest) e n req =
  Returns {| resp_objectIds := Some page; resp_features := None |}.
Proof.
  intros ->. unfold scripted_service.
  now rewrite list_lookup_middle by reflexivity.
Qed.

Lemma scripted_service_end (pages : list (list Z)) (e : exn) (n : nat) (req : request) :
  n = length pages -> scripted_service pages e n req = Raises e.
Proof.
  intros ->. unfold scripted_service.
  now rewrite lookup_ge_None_2 by lia.
Qed.

Lemma requests_made_snoc (w : world) (e : event) :
  requests_made (w ++ [e]) =
  requests_made w + match e with HttpGet _ _ => 1 | _ => 0 end.
Proof. rewrite requests_made_app. destruct e; reflexivity. Qed.

(** The loop against a service that serves the full pages [rest] and then
    fails: the pages are accumulated, the failing request is the last one,
    and one error text is written, which names the offset reached. *)
Lemma scripted_loop_run (e : exn) (wc : string) (batch_size : nat) :
  0 < batch_size ->
  forall rest done fuel acc offset batch_count w,
    Forall (fun page => batch_size <= length page) rest ->
    requests_made w = length done ->
    length rest < fuel ->
    exists evs,
      get_object_ids_loop (scripted_service (done ++ rest) e) fuel wc batch_size
        acc offset batch_count w
        = (Some (acc ++ concat rest), w ++ evs) /\
      length (http_requests evs) = S (length rest) /\
      errors evs =
        [if is_request_exception e
         then MsgErrorFetchingIds (offset + length (concat rest)) e
         else MsgErrorProcessingIds e].
Proof.
  intros Hpos.
  induction rest as [|page rest IH];
    intros done fuel acc offset batch_count w Hfull Hw Hfuel;
    (destruct fuel as [|fuel]; [simpl in Hfuel; lia|]).
  - simpl get_object_ids_loop. unfold mbind, io_bind, emit, requests_get.
    rewrite scripted_service_end
      by (rewrite requests_made_snoc, app_nil_r; simpl; lia).
    io_step. eexists. split; [|split].
    + rewrite app_nil_r, <- !app_assoc. reflexivity.
    + reflexivity.
    + simpl. now rewrite Nat.add_0_r.
  - apply Forall_cons in Hfull as [Hpage Hrest].
    simpl get_object_ids_loop. unfold mbind, io_bind, emit, requests_get.
    rewrite (scripted_service_page done rest page)
      by (rewrite requests_made_snoc; simpl; lia).
    destruct page as [|x page]; [simpl in Hpage; lia|].
    cbn [resp_objectIds]. cbv beta iota.
    rewrite (proj2 (Nat.ltb_ge _ _)) by exact Hpage.
    set (w1 := ((w ++ [StText (MsgFetchingIds (length acc))]) ++
                [HttpGet (IdQuery wc offset batch_size)
                   (Returns {| resp_objectIds := Some (x :: page);
                               resp_features := None |})]) ++
               [Sleep (courtesy_delay (batch_count + 1))]).
    destruct (IH (done ++ [x :: page]) fuel (acc ++ x :: page)
                (offset + length (x :: page)) (batch_count + 1) w1)
      as (evs & Hrun & Hreq & Herr).
    + exact Hrest.
    + unfold w1. rewrite !requests_made_snoc, length_app. simpl. lia.
    + simpl in Hfuel. lia.
    + rewrite <- app_assoc in Hrun. simpl in Hrun.
      eexists. split; [|split].
      * io_step. fold w1. rewrite Hrun. unfold w1.
        rewrite <- !app_assoc. simpl. reflexivity.
      * simpl. now rewrite Hreq.
      * simpl. rewrite Herr.
        do 2 f_equal. destruct (is_request_exception e); [|reflexivity].
        f_equal. rewrite length_app. simpl. lia.
Qed.

(** C4, as the specification states it, fails on the code.  The first run
    meets a transport failure at offset 2 after one full page, the second
    is a complete run against a service that holds exactly the identifiers
    1 and 2.  Both return the list [[1; 2]]: the value handed to the
    caller is the same, only the page shows an error in the first run. *)
Lemma partial_ids_look_complete :
  errors (snd (get_object_ids (scripted_service [[1; 2]%Z] RequestException)
                 2 "1=1" 2 []))
    = [MsgErrorFetchingIds 2 RequestException] /\
  errors (snd (get_object_ids (paged_service [1; 2]%Z) 2 "1=1" 2 [])) = [] /\
  pages_received (snd (get_object_ids (paged_service [1; 2]%Z) 2 "1=1" 2 []))
    = [[1; 2]%Z; []] /\
  fst (get_object_ids (scripted_service [[1; 2]%Z] RequestException) 2 "1=1" 2 [])
    = Some [1; 2]%Z /\
  fst (get_object_ids (scripted_service [[1; 2]%Z] RequestException) 2 "1=1" 2 [])
    = fst (get_object_ids (paged_service [1; 2]%Z) 2 "1=1" 2 []).
Proof. vm_compute. repeat split. Qed.

(** C4, amended.  When a request fails after any number of full pages,
    whatever the offset then reached, [get_object_ids] sends no further
    request, writes one error text to the page and returns the identifiers
    of the pages received before the failure.  The value returned is a
    plain list with no mark of incompleteness: a complete run against a
    service that holds exactly those identifiers returns the same list,
    and differs only in writing no error text. *)
Theorem failure_returns_partial_ids (pages : list (list Z)) (e : exn)
    (wc : string) (batch_size fuel : nat) (w : world) :
  0 < batch_size ->
  Forall (fun page => batch_size <= length page) pages ->
  requests_made w = 0 ->
  length pages < fuel ->
  exists evs,
    get_object_ids (scripted_service pages e) fuel wc batch_size w
      = (Some (concat pages), w ++ evs) /\
    length (http_requests evs) = length pages + 1 /\
    errors evs =
      [if is_request_exception e
       then MsgErrorFetchingIds (length (concat pages)) e
       else MsgErrorProcessingIds e] /\
    forall fuel',
      length (concat pages) / batch_size < fuel' ->
      exists evs',
        get_object_ids (paged_service (concat pages)) fuel' wc batch_size w
          = (Some (concat pages), w ++ evs') /\
        errors evs' = [].
Proof.
  intros Hpos Hfull Hw Hfuel.
  destruct (scripted_loop_run e wc batch_size Hpos pages [] fuel [] 0 0
              (w ++ [StEmpty]) Hfull) as (evl & Hloop & Hreq & Herr).
  { rewrite requests_made_snoc. simpl. lia. }
  { exact Hfuel. }
  simpl in Hloop, Herr.
  exists ([StEmpty] ++ evl ++ [StText (MsgRetrievedIds (length (concat pages)))]).
  destruct (framed_log evl (MsgRetrievedIds (length (concat pages))))
    as (Fr & _ & _ & Ferr).
  rewrite Fr, Ferr.
  split; [|split; [|split]].
  - unfold get_object_ids. io_step. rewrite Hloop. simpl.
    now rewrite <- !app_assoc.
  - rewrite Hreq. lia.
  - exact Herr.
  - intros fuel' Hfuel'.
    pose proof (Nat.div_mod_eq (length (concat pages)) batch_size) as Hdiv.
    pose proof (Nat.mod_upper_bound (length (concat pages)) batch_size
                  ltac:(lia)) as Hmod.
    destruct (paged_loop_run (concat pages) wc batch_size
                (length (concat pages) / batch_size)
                (length (concat pages) mod batch_size) Hpos ltac:(lia) Hmod
                fuel' 0 [] 0 (w ++ [StEmpty]) ltac:(lia) ltac:(lia))
      as (evl' & Hloop' & _ & Herr').
    simpl in Hloop'.
    exists ([StEmpty] ++ evl' ++ [StText (MsgRetrievedIds (length (concat pages)))]).
    destruct (framed_log evl' (MsgRetrievedIds (length (concat pages))))
      as (_ & _ & _ & Ferr').
    rewrite Ferr'. split; [|exact Herr'].
    unfold get_object_ids. io_step. rewrite Hloop'. simpl.
    now rewrite <- !app_assoc.
Qed.

Lemma failure_returns_partial_ids_witness :
  fst (get_object_ids (scripted_service [[1; 2]; [3; 4]]%Z RequestException)
         3 "1=1" 2 [])
    = Some [1; 2; 3; 4]%Z /\
  fst (get_object_ids (paged_service [1; 2; 3; 4]%Z) 3 "1=1" 2 [])
    = Some [1; 2; 3; 4]%Z.
Proof.
  destruct (failure_returns_partial_ids [[1; 2]; [3; 4]]%Z RequestException
              "1=1" 2 3 [] ltac:(lia)
              ltac:(repeat constructor) ltac:(reflexivity) ltac:(simpl; lia))
    as (evs & Hfail & _ & _ & Hcomplete).
  destruct (Hcomplete 3 ltac:(vm_compute; lia)) as (evs' & Hfull & _).
  split; [exact (f_equal fst Hfail) | exact (f_equal fst Hfull)].
Defined.

End PaginationFailure.

(** ** The button handlers *)

Section HandlerFacts.
Import Py Normalizer Effects Client ClientSpec Services Samples App.

(** Whatever the service, [get_object_ids] sends identifier queries
    only. *)
Lemma get_object_ids_sends_id_queries (svc : service) (fuel : nat) (wc : string)
    (batch_size : nat) (w w' : world) (ids : list Z) :
  get_object_ids svc fuel wc batch_size w = (Some ids, w') ->
  exists evs,
    w' = w ++ evs /\
    Forall (fun req => exists off, req = IdQuery wc off batch_size)
           (http_requests evs).
Proof.
  intros Hrun.
  destruct (get_object_ids_run _ _ _ _ _ _ _ Hrun)
    as (evs & _ & _ & -> & _ & Hreq & _).
  eexists. split; [reflexivity|].
  destruct (framed_log evs (MsgRetrievedIds (length ids))) as (-> & _).
  rewrite Hreq. apply Forall_forall. intros req Hin.
  apply list_elem_of_In, in_map_iff in Hin. destruct Hin as (off & <- & _).
  now exists off.
Qed.

(** C6, as the specification states it, fails on the code.  With a
    service that holds no identifier, the sidebar handler started with
    nothing loaded leaves [geojson_data] at [None], and the expander
    handler started with a local collection keeps that collection; neither
    hands on an empty collection. *)
Lemma no_identifiers_hands_on_no_empty_collection :
  fst (load_madison_sidebar (paged_service []) 1
         {| session_geojson_data := None; geojson_data := None |} [])
    = Some {| session_geojson_data := None; geojson_data := None |} /\
  fst (load_madison_expander (paged_service []) 1
         {| session_geojson_data := Some mixed_collection;
            geojson_data := Some mixed_collection |} [])
    = Some {| session_geojson_data := Some mixed_collection;
              geojson_data := Some mixed_collection |} /\
  features mixed_collection <> [].
Proof. split; [reflexivity|]. split; [reflexivity|]. discriminate. Qed.

(** C6, amended.  When the identifier fetch returns no identifier, both
    handlers write a warning and do not call [get_features_by_ids]: the
    only requests of the run are the identifier queries.  No collection is
    produced: the session keeps what it held, and [geojson_data] keeps its
    value (in the sidebar, the cached collection when there is one). *)
Theorem no_identifiers_no_feature_fetch (svc : service) (fuel : nat) (a : app)
    (w w1 : world) :
  get_object_ids svc fuel "1=1" OBJECT_ID_BATCH_SIZE (w ++ [StInfo MsgStep1])
    = (Some [], w1) ->
  load_madison_expander svc fuel a w = (Some a, w1 ++ [StWarning MsgNoObjectIds]) /\
  (exists a' tail,
     load_madison_sidebar svc fuel a w
       = (Some a', w1 ++ [StWarning MsgNoObjectIds] ++ tail) /\
     session_geojson_data a' = session_geojson_data a /\
     geojson_data a' = match session_geojson_data a with
                       | Some cached => Some cached
                       | None => geojson_data a
                       end /\
     http_requests tail = []) /\
  (exists evs,
     w1 = w ++ evs /\
     Forall (fun req => exists off, req = IdQuery "1=1" off OBJECT_ID_BATCH_SIZE)
            (http_requests evs)).
Proof.
  intros Hids. split; [|split].
  - unfold load_madison_expander, mbind, io_bind, emit. rewrite Hids. reflexivity.
  - unfold load_madison_sidebar, mbind, io_bind, emit. rewrite Hids.
    destruct a as [[cached|] current]; simpl.
    + eexists _, _. split; [rewrite <- app_assoc; reflexivity|]. auto.
    + exists {| session_geojson_data := None; geojson_data := current |}, [].
      repeat split.
  - destruct (get_object_ids_sends_id_queries _ _ _ _ _ _ _ Hids)
      as (evs & -> & Hall).
    exists ([StInfo MsgStep1] ++ evs). split; [now rewrite <- app_assoc|].
    rewrite http_requests_app. exact Hall.
Qed.

Lemma no_identifiers_no_feature_fetch_witness :
  fst (load_madison_expander (paged_service []) 1
         {| session_geojson_data := Some mixed_collection;
            geojson_data := Some mixed_collection |} [])
  = Some {| session_geojson_data := Some mixed_collection;
            geojson_data := Some mixed_collection |}.
Proof.
  destruct (no_identifiers_no_feature_fetch (paged_service []) 1
              {| session_geojson_data := Some mixed_collection;
                 geojson_data := Some mixed_collection |} []
              (snd (get_object_ids (paged_service []) 1 "1=1" OBJECT_ID_BATCH_SIZE
                      ([] ++ [StInfo MsgStep1]))) ltac:(reflexivity))
    as (Hexp & _).
  exact (f_equal fst Hexp).
Defined.

(** With identifiers the handlers do fetch: a service that holds three
    trees leaves three features in the session. *)
Example three_trees_are_loaded :
  exists a, fst (load_madison_sidebar (paged_service (id_run 1 3)) 1
                   {| session_geojson_data := None; geojson_data := None |} [])
            = Some a /\
            (features <$> geojson_data a) = Some (map tree_of_id (id_run 1 3)).
Proof. eexists. split; reflexivity. Qed.

End HandlerFacts.

(** ** Further properties of the geometry policy *)

Section GeometryMore.
Import Geometry.
Local Open Scope Q_scope.

Lemma feet_to_meters_scales (feet : Q) : feet_to_meters feet == feet * (381 # 1250).
Proof. unfold feet_to_meters. lra. Qed.

(** X1.  The protection radius in feet is the larger of 5 and the
    diameter in inches: one foot per inch above the 5-foot minimum.  So it
    is the same for all diameters up to 5 and strictly increasing beyond. *)
Theorem radius_is_max_of_minimum_and_diameter :
  (forall d, calculate_protection_radius d == Qmax 5 d) /\
  (forall d1 d2, d1 <= 5 -> d2 <= 5 ->
     calculate_protection_radius d1 = calculate_protection_radius d2) /\
  (forall d1 d2, 5 < d1 -> d1 < d2 ->
     calculate_protection_radius d1 < calculate_protection_radius d2).
Proof.
  split; [|split].
  - intros d. destruct (radius_cases d) as [[H ->]|[H ->]].
    + symmetry. apply Q.max_l. exact H.
    + rewrite Q.max_r by lra. lra.
  - intros d1 d2 H1 H2. now rewrite !radius_small.
  - exact radius_strictly_increasing.
Qed.

(** X2.  The conversion to meters is linear and strictly increasing, and
    sends 0 to 0; applied to the protection radius it gives at least
    1.524 m for every diameter, and 0.3048 m per inch of diameter above
    5 inches. *)
Theorem radius_in_meters :
  feet_to_meters 0 == 0 /\
  (forall a b, feet_to_meters (a + b) == feet_to_meters a + feet_to_meters b) /\
  (forall k a, feet_to_meters (k * a) == k * feet_to_meters a) /\
  (forall a b, a < b -> feet_to_meters a < feet_to_meters b) /\
  (forall d, 1524 # 1000 <= feet_to_meters (calculate_protection_radius d)) /\
  (forall d, 5 < d ->
     feet_to_meters (calculate_protection_radius d) == d * (3048 # 10000)).
Proof.
  split; [reflexivity|].
  split; [intros a b; rewrite !feet_to_meters_scales; ring|].
  split; [intros k a; rewrite !feet_to_meters_scales; ring|].
  split; [intros a b Hab; rewrite !feet_to_meters_scales; lra|].
  split.
  - intros d. rewrite feet_to_meters_scales.
    destruct (radius_cases d) as [[H ->]|[H ->]]; lra.
  - intros d Hd. rewrite feet_to_meters_scales, (radius_large d Hd).
    lra.
Qed.

End GeometryMore.

(** ** Further properties of the normalizer *)

Section NormalizerMore.
Import Py Normalizer NormalizerSpec Samples.

(** A feature is normalized exactly when its geometry is usable and its
    properties are a dictionary. *)
Lemma process_feature_succeeds_iff (f : feature) :
  (exists r, process_feature f = inr r) <->
  malformed_geometry f = false /\ is_Some (properties f).
Proof.
  split.
  - intros [r Hr].
    destruct (process_feature_inr f r Hr)
      as (props & g & coords & c0 & c1 & Hp & Hg & Hc & H0 & H1 & _).
    split; [|rewrite Hp; eauto].
    unfold malformed_geometry. rewrite Hg. destruct g as [cs]. simpl in Hc. subst cs.
    destruct coords as [|? [|? ?]]; simpl in *; try discriminate. reflexivity.
  - intros [Hgeo [props Hp]]. now apply (well_formed_succeeds f props).
Qed.

Lemma process_loop_app (todo1 todo2 : list feature) :
  forall rows,
    process_loop (todo1 ++ todo2) rows =
    match process_loop todo1 rows with
    | inl e => inl e
    | inr rows1 => process_loop todo2 rows1
    end.
Proof.
  induction todo1 as [|f todo1 IH]; intros rows; simpl; [reflexivity|].
  destruct (process_feature f) as [e|row]; [reflexivity | apply IH].
Qed.

Lemma process_loop_shift (todo : list feature) :
  forall rows rs,
    process_loop todo [] = inr rs -> process_loop todo rows = inr (rows ++ rs).
Proof.
  intros rows rs H.
  destruct (process_loop_inr _ _ _ H) as (rs' & -> & Hall).
  now apply process_loop_all.
Qed.

Lemma normalized_each (fs : list feature) (rs : list tree_record) :
  Forall2 (fun f r => process_feature f = inr r) fs rs ->
  Forall (fun f => exists r, process_feature f = inr r) fs.
Proof. induction 1; constructor; eauto. Qed.

Lemma each_normalized (fs : list feature) :
  Forall (fun f => exists r, process_feature f = inr r) fs ->
  exists rs, Forall2 (fun f r => process_feature f = inr r) fs rs.
Proof.
  induction 1 as [|f fs [r Hr] _ [rs IH]]; [exists []; constructor|].
  exists (r :: rs). now constructor.
Qed.

(** X3.  [process_geojson_data] returns a frame exactly when every
    feature of the collection has a dictionary of properties and at least
    two coordinates; the frame then has one row per feature. *)
Theorem process_geojson_data_succeeds_iff (fc : feature_collection) :
  ((exists rows, process_geojson_data fc = inr rows) <->
   Forall (fun f => malformed_geometry f = false /\ is_Some (properties f))
          (features fc)) /\
  (forall rows, process_geojson_data fc = inr rows ->
     length rows = length (features fc)).
Proof.
  unfold process_geojson_data. split; [split|].
  - intros [rows H].
    destruct (process_loop_inr _ _ _ H) as (rs & _ & Hall).
    apply normalized_each in Hall.
    eapply Forall_impl; [exact Hall|].
    intros f Hf. now apply process_feature_succeeds_iff.
  - intros Hall.
    destruct (each_normalized (features fc)) as [rs Hrs].
    { eapply Forall_impl; [exact Hall|].
      intros f Hf. now apply process_feature_succeeds_iff. }
    exists rs. now rewrite (process_loop_all _ [] rs Hrs).
  - intros rows H.
    destruct (process_loop_inr _ _ _ H) as (rs & -> & Hall).
    simpl. symmetry. exact (Forall2_length _ _ _ Hall).
Qed.

(** X4.  The exception that leaves [process_geojson_data] is the one
    raised by the first feature that cannot be normalized; the features
    after it are not looked at. *)
Theorem first_failing_feature_decides (fc : feature_collection)
    (good rest : list feature) (f : feature) (e : exn) :
  features fc = good ++ f :: rest ->
  Forall (fun g => exists r, process_feature g = inr r) good ->
  process_feature f = inl e ->
  process_geojson_data fc = inl e.
Proof.
  intros Hfc Hgood Hf. unfold process_geojson_data. rewrite Hfc.
  assert (exists rs, process_loop good [] = inr rs) as [rs Hrs].
  { destruct (each_normalized good Hgood) as [rs Hall].
    exists rs. now rewrite (process_loop_all _ [] rs Hall). }
  rewrite process_loop_app, Hrs. simpl. now rewrite Hf.
Qed.

Lemma first_failing_feature_decides_witness :
  process_geojson_data mixed_collection = inl IndexError.
Proof.
  apply (first_failing_feature_decides mixed_collection
           [honeylocust] [both_spellings] short_point IndexError).
  - reflexivity.
  - constructor; [eexists; reflexivity | constructor].
  - reflexivity.
Defined.

(** X5.  Frames compose: the frame of two collections put end to end is
    the frame of the first followed by the frame of the second, so rows
    keep the order of the features and repeated features give repeated
    rows. *)
Theorem process_geojson_data_app (fc1 fc2 : feature_collection)
    (rows1 rows2 : list tree_record) :
  process_geojson_data fc1 = inr rows1 ->
  process_geojson_data fc2 = inr rows2 ->
  process_geojson_data
    {| fc_type := fc_type fc1; features := features fc1 ++ features fc2 |}
  = inr (rows1 ++ rows2).
Proof.
  unfold process_geojson_data. simpl. intros H1 H2.
  rewrite process_loop_app, H1. now apply process_loop_shift.
Qed.

Lemma process_geojson_data_app_witness :
  exists row,
    process_geojson_data
      {| fc_type := "FeatureCollection"; features := [honeylocust; honeylocust] |}
    = inr [row; row].
Proof.
  destruct (process_geojson_data
              {| fc_type := "FeatureCollection"; features := [honeylocust] |})
    as [e|rows] eqn:E; [vm_compute in E; discriminate|].
  assert (exists row, rows = [row]) as [row ->].
  { vm_compute in E. injection E as <-. eexists. reflexivity. }
  exists row.
  exact (process_geojson_data_app _ _ _ _ E E).
Defined.

End NormalizerMore.

(** ** Further properties of the batched feature fetch *)

Section FeatureFetchMore.
Import Py Normalizer Effects Client ClientSpec Services FetchLog.

(** The loop appends to the log exactly the events of its iterations. *)
Lemma get_features_loop_log (svc : service) (out : string) (total : nat)
    (chunks : list (list Z)) :
  forall i acc w,
    snd (get_features_loop svc total i chunks out acc w) =
    w ++ loop_events svc total (requests_made w) i chunks out.
Proof.
  induction chunks as [|chunk chunks IH]; intros i acc w.
  - simpl. now rewrite app_nil_r.
  - simpl. io_step.
    rewrite requests_made_app, Nat.add_0_r.
    set (res := svc (requests_made w) (FeatureQuery chunk out)).
    assert (forall tail,
              http_requests tail = [] ->
              requests_made
                (((w ++ [StText (MsgProcessingBatch (i + 1) total (length chunk))])
                    ++ [HttpGet (FeatureQuery chunk out) res]) ++ tail)
              = S (requests_made w)) as Hn.
    { intros tail Ht. unfold requests_made. rewrite !http_requests_app, Ht.
      simpl. rewrite !length_app. simpl. lia. }
    unfold chunk_events. fold res.
    destruct res as [e|data].
    + rewrite IH, Hn by reflexivity. now rewrite <- !app_assoc.
    + destruct (truediv (i + 1) total) as [e|fraction].
      * rewrite IH, Hn by reflexivity. now rewrite <- !app_assoc.
      * rewrite IH.
        rewrite <- (app_assoc _ [StProgress fraction] [Sleep _]).
        rewrite Hn by reflexivity. now rewrite <- !app_assoc.
Qed.

Lemma get_features_by_ids_log (svc : service) (object_ids : list Z) (out : string)
    (w : world) :
  exists n,
    snd (get_features_by_ids svc object_ids out w) =
    w ++ [StProgressNew; StEmpty] ++
    loop_events svc (length (id_chunks object_ids)) (requests_made w) 0
      (id_chunks object_ids) out ++
    [StText (MsgProcessedFeatures n); StProgressEmpty].
Proof.
  unfold get_features_by_ids. io_step.
  pose proof (get_features_loop_log svc out (length (id_chunks object_ids))
                (id_chunks object_ids) 0 [] ((w ++ [StProgressNew]) ++ [StEmpty]))
    as Hlog.
  destruct (get_features_loop svc (length (id_chunks object_ids)) 0
              (id_chunks object_ids) out [] ((w ++ [StProgressNew]) ++ [StEmpty]))
    as [fs w1].
  simpl in *. subst w1. exists (length fs).
  assert (requests_made ((w ++ [StProgressNew]) ++ [StEmpty]) = requests_made w) as ->.
  { unfold requests_made. rewrite !http_requests_app. simpl.
    now rewrite !app_nil_r. }
  now rewrite <- !app_assoc.
Qed.

Lemma sleeps_app (w1 w2 : world) : sleeps (w1 ++ w2) = sleeps w1 ++ sleeps w2.
Proof. apply omap_app. Qed.

Lemma truediv_defined (a b : nat) :
  b <> 0 -> truediv a b = inr (Qmake (Z.of_nat a) (Pos.of_nat b)).
Proof. destruct b; [congruence | reflexivity]. Qed.

Lemma loop_events_cons (svc : service) (total n j : nat) (chunk : list Z)
    (chunks : list (list Z)) (out : string) :
  loop_events svc total n j (chunk :: chunks) out =
  chunk_events total j chunk out (svc n (FeatureQuery chunk out)) ++
  loop_events svc total (S n) (j + 1) chunks out.
Proof. reflexivity. Qed.

(** What the iterations write, read off the results of their requests:
    the error texts, the pauses and the progress values. *)
Lemma loop_events_projections (svc : service) (out : string) (total : nat)
    (chunks : list (list Z)) :
  forall n j,
    j + length chunks = total ->
    errors (loop_events svc total n j chunks out)
      = pick_from chunk_error j (chunk_results svc n out chunks) /\
    sleeps (loop_events svc total n j chunks out)
      = pick_from chunk_pause j (chunk_results svc n out chunks) /\
    progress_updates (loop_events svc total n j chunks out)
      = pick_from (chunk_progress total) j (chunk_results svc n out chunks).
Proof.
  induction chunks as [|chunk chunks IH]; intros n j Htot; [now simpl|].
  simpl in Htot. rewrite chunk_results_cons, loop_events_cons.
  destruct (IH (S n) (j + 1) ltac:(lia)) as (He & Hs & Hp).
  rewrite errors_app, sleeps_app, progress_updates_app, He, Hs, Hp.
  unfold chunk_events.
  destruct (svc n (FeatureQuery chunk out)) as [e|data]; simpl.
  - auto.
  - rewrite truediv_defined by lia. simpl. auto.
Qed.

Lemma pick_from_Forall {A : Type} (pick : nat -> http_result -> option A)
    (P : A -> Prop) (results : list http_result) :
  forall j,
    (forall k res a, j <= k < j + length results -> pick k res = Some a -> P a) ->
    Forall P (pick_from pick j results).
Proof.
  induction results as [|res results IH]; intros j Hp; simpl; [constructor|].
  assert (Forall P (pick_from pick (j + 1) results)) as Hrest.
  { apply IH. intros k r a Hk. apply Hp. simpl. lia. }
  destruct (pick j res) as [a|] eqn:E; [|exact Hrest].
  constructor; [|exact Hrest]. apply (Hp j res a); [simpl; lia | exact E].
Qed.

Lemma pick_from_all_succeeded (results : list http_result) :
  Forall (fun r => succeeded r = true) results ->
  forall j, pick_from chunk_pause j results
            = map (fun k => courtesy_delay (k + 1)) (seq j (length results)).
Proof.
  induction 1 as [|res results Hres _ IH]; intros j; [reflexivity|].
  destruct res as [e|data]; [discriminate|]. simpl.
  rewrite IH. now rewrite Nat.add_1_r.
Qed.

(** Ten requests cost fourteen seconds of pauses: one second each, and
    four more for every tenth. *)
Lemma courtesy_delay_total (n : nat) :
  sum_list (map (fun k => courtesy_delay (k + 1)) (seq 0 n)) = n + 4 * (n / 10).
Proof.
  induction n as [|n IH]; [reflexivity|].
  rewrite seq_S, map_app, sum_list_with_app, IH.
  change (sum_list (map (fun k => courtesy_delay (k + 1)) [0 + n]))
    with (courtesy_delay (n + 1) + 0).
  unfold courtesy_delay. rewrite Nat.add_1_r.
  pose proof (Nat.div_mod_eq n 10) as En.
  pose proof (Nat.mod_upper_bound n 10 ltac:(lia)) as Bn.
  pose proof (Nat.div_mod_eq (S n) 10) as Es.
  pose proof (Nat.mod_upper_bound (S n) 10 ltac:(lia)) as Bs.
  destruct (S n mod 10 =? 0) eqn:E.
  - apply Nat.eqb_eq in E. lia.
  - apply Nat.eqb_neq in E. lia.
Qed.

(** The log of a whole fetch, with the loop's part set apart. *)
Lemma get_features_by_ids_projections (svc : service) (object_ids : list Z)
    (out : string) (w : world) :
  exists evs,
    snd (get_features_by_ids svc object_ids out w) = w ++ evs /\
    errors evs = pick_from chunk_error 0
                   (chunk_results svc (requests_made w) out (id_chunks object_ids)) /\
    sleeps evs = pick_from chunk_pause 0
                   (chunk_results svc (requests_made w) out (id_chunks object_ids)) /\
    progress_updates evs =
      pick_from (chunk_progress (length (id_chunks object_ids))) 0
        (chunk_results svc (requests_made w) out (id_chunks object_ids)).
Proof.
  destruct (get_features_by_ids_log svc object_ids out w) as [n Hlog].
  destruct (loop_events_projections svc out (length (id_chunks object_ids))
              (id_chunks object_ids) (requests_made w) 0 eq_refl)
    as (He & Hs & Hp).
  eexists. split; [exact Hlog|].
  rewrite !errors_app, !sleeps_app, !progress_updates_app, He, Hs, Hp.
  simpl. now rewrite !app_nil_r.
Qed.

(** X6.  [get_features_by_ids] writes one error text for each chunk whose
    request failed, in chunk order; the text names the number of the
    batch, counted from 1, and tells a request failure from any other.
    No other error text is written: none comes from the progress
    computation. *)
Theorem feature_errors_name_failed_chunks (svc : service) (object_ids : list Z)
    (out_fields : string) (w : world) :
  exists evs,
    snd (get_features_by_ids svc object_ids out_fields w) = w ++ evs /\
    errors evs =
      pick_from chunk_error 0
        (chunk_results svc (requests_made w) out_fields (id_chunks object_ids)) /\
    length (errors evs) =
      length (filter (fun r => succeeded r = false)
                (chunk_results svc (requests_made w) out_fields
                   (id_chunks object_ids))).
Proof.
  destruct (get_features_by_ids_projections svc object_ids out_fields w)
    as (evs & Hlog & He & _).
  exists evs. split; [exact Hlog|]. split; [exact He|].
  rewrite He. clear He Hlog. generalize 0.
  induction (chunk_results svc (requests_made w) out_fields (id_chunks object_ids))
    as [|[e|data] results IH]; intros j; [reflexivity| |].
  - rewrite filter_cons_True by reflexivity.
    cbn [pick_from chunk_error length]. f_equal. apply IH.
  - rewrite filter_cons_False by (simpl; discriminate).
    cbn [pick_from chunk_error]. apply IH.
Qed.

(** X7.  A pause follows every answered chunk and no failed one: five
    seconds after each tenth chunk, one second after the others.  When
    every chunk is answered, the pauses of a fetch of [n] chunks add up to
    [n + 4 * (n / 10)] seconds. *)
Theorem feature_fetch_pauses (svc : service) (object_ids : list Z)
    (out_fields : string) (w : world) :
  exists evs,
    snd (get_features_by_ids svc object_ids out_fields w) = w ++ evs /\
    sleeps evs =
      pick_from chunk_pause 0
        (chunk_results svc (requests_made w) out_fields (id_chunks object_ids)) /\
    (Forall (fun r => succeeded r = true)
       (chunk_results svc (requests_made w) out_fields (id_chunks object_ids)) ->
     sum_list (sleeps evs) =
       ceil_div (length object_ids) FEATURE_BATCH_SIZE
       + 4 * (ceil_div (length object_ids) FEATURE_BATCH_SIZE / 10)).
Proof.
  destruct (get_features_by_ids_projections svc object_ids out_fields w)
    as (evs & Hlog & _ & Hs & _).
  exists evs. split; [exact Hlog|]. split; [exact Hs|].
  intros Hall. rewrite Hs, (pick_from_all_succeeded _ Hall).
  rewrite length_chunk_results. unfold id_chunks.
  rewrite length_chunks_of by apply FEATURE_BATCH_SIZE_pos.
  apply courtesy_delay_total.
Qed.

Lemma chunk_progress_bounds (total k : nat) (res : http_result) (q : Q) :
  k < total -> chunk_progress total k res = Some q -> (0 < q /\ q <= 1)%Q.
Proof.
  intros Hk H. destruct res as [e|data]; [discriminate|].
  injection H as <-. unfold Qlt, Qle. simpl.
  assert (Z.pos (Pos.of_nat total) = Z.of_nat total) as ->.
  { rewrite <- positive_nat_Z, Nat2Pos.id by lia. reflexivity. }
  lia.
Qed.

(** X8.  After the answered chunk of index [j], the progress bar is set
    to [(j + 1) / n], where [n] is the number of chunks.  Every value set
    is above 0 and at most 1, the range [st.progress] accepts. *)
Theorem feature_fetch_progress (svc : service) (object_ids : list Z)
    (out_fields : string) (w : world) :
  exists evs,
    snd (get_features_by_ids svc object_ids out_fields w) = w ++ evs /\
    progress_updates evs =
      pick_from (chunk_progress (length (id_chunks object_ids))) 0
        (chunk_results svc (requests_made w) out_fields (id_chunks object_ids)) /\
    Forall (fun q => 0 < q /\ q <= 1)%Q (progress_updates evs).
Proof.
  destruct (get_features_by_ids_projections svc object_ids out_fields w)
    as (evs & Hlog & _ & _ & Hp).
  exists evs. split; [exact Hlog|]. split; [exact Hp|].
  rewrite Hp. apply pick_from_Forall.
  intros k res q Hk Hq. rewrite length_chunk_results in Hk.
  apply (chunk_progress_bounds (length (id_chunks object_ids)) k res);
    [lia | exact Hq].
Qed.

(** X9.  Against a service that answers every chunk with one feature per
    identifier asked for, the collection returned holds the feature of
    every identifier of the input, in the order of the input, repeated
    identifiers included, and no error text is written. *)
Theorem all_chunks_answered_round_trip (e : exn) (db : Z -> feature)
    (object_ids : list Z) (out_fields : string) (w : world) :
  features (fst (get_features_by_ids (chunk_service (fun _ => false) e db)
                   object_ids out_fields w))
    = map db object_ids /\
  errors (snd (get_features_by_ids (chunk_service (fun _ => false) e db)
                 object_ids out_fields w))
    = errors w.
Proof.
  set (svc := chunk_service (fun _ => false) e db).
  assert (forall n chunks,
            chunk_results svc n out_fields chunks =
            map (fun chunk => Returns {| resp_objectIds := None;
                                          resp_features := Some (map db chunk) |})
                chunks) as Hres.
  { intros n chunks. revert n.
    induction chunks as [|chunk chunks IH]; intros n; [reflexivity|].
    rewrite chunk_results_cons, IH. reflexivity. }
  split.
  - destruct (get_features_by_ids_run svc object_ids out_fields w)
      as (evs & -> & _). simpl. rewrite Hres, map_map. simpl.
    rewrite <- (concat_chunks_of FEATURE_BATCH_SIZE object_ids) at 2
      by apply FEATURE_BATCH_SIZE_pos.
    unfold id_chunks.
    induction (chunks_of FEATURE_BATCH_SIZE object_ids) as [|chunk chunks IH];
      [reflexivity|].
    simpl. now rewrite map_app, IH.
  - destruct (get_features_by_ids_projections svc object_ids out_fields w)
      as (evs & -> & He & _).
    rewrite errors_app, He, Hres.
    assert (forall j chunks,
              pick_from chunk_error j
                (map (fun chunk => Returns {| resp_objectIds := None;
                                              resp_features := Some (map db chunk) |})
                     chunks) = []) as Hnone.
    { intros j chunks. revert j.
      induction chunks as [|chunk chunks IH]; intros j; [reflexivity | apply IH]. }
    now rewrite Hnone, app_nil_r.
Qed.

End FeatureFetchMore.

Section ChunkSizes.
Import Py Client ClientSpec.

(** X10.  No chunk of a batched fetch is empty, and every chunk but the
    last holds exactly 100 identifiers; the last holds what remains. *)
Theorem id_chunks_sizes (object_ids : list Z) :
  Forall (fun chunk => 0 < length chunk) (id_chunks object_ids) /\
  (forall k chunk,
     id_chunks object_ids !! k = Some chunk ->
     S k < length (id_chunks object_ids) ->
     length chunk = FEATURE_BATCH_SIZE) /\
  (forall k chunk,
     id_chunks object_ids !! k = Some chunk ->
     S k = length (id_chunks object_ids) ->
     length chunk = length object_ids - k * FEATURE_BATCH_SIZE).
Proof.
  pose proof FEATURE_BATCH_SIZE_pos as Hpos. unfold id_chunks.
  split; [now apply chunks_of_nonempty|].
  rewrite length_chunks_of by assumption.
  assert (forall k chunk,
            chunks_of FEATURE_BATCH_SIZE object_ids !! k = Some chunk ->
            k < ceil_div (length object_ids) FEATURE_BATCH_SIZE /\
            length chunk =
              Nat.min FEATURE_BATCH_SIZE (length object_ids - k * FEATURE_BATCH_SIZE))
    as Hlen.
  { intros k chunk Hk.
    assert (k < ceil_div (length object_ids) FEATURE_BATCH_SIZE) as Hlt.
    { apply lookup_lt_Some in Hk. now rewrite length_chunks_of in Hk. }
    rewrite chunks_of_lookup in Hk by assumption. injection Hk as <-.
    split; [exact Hlt|]. now rewrite length_take, length_drop. }
  assert (0 < length object_ids ->
          (ceil_div (length object_ids) FEATURE_BATCH_SIZE - 1) * FEATURE_BATCH_SIZE
          < length object_ids) as Htight by (now apply ceil_div_tight).
  pose proof (ceil_div_covers (length object_ids) FEATURE_BATCH_SIZE Hpos) as Hcov.
  split.
  - intros k chunk Hk Hnext. destruct (Hlen k chunk Hk) as [_ ->].
    assert (0 < length object_ids) as Hne.
    { destruct object_ids; simpl; [|lia].
      rewrite ceil_div_0 in Hnext by assumption. lia. }
    specialize (Htight Hne). nia.
  - intros k chunk Hk Hlast. destruct (Hlen k chunk Hk) as [_ ->]. nia.
Qed.

End ChunkSizes.

(** ** Further properties of identifier pagination *)

Section PaginationMore.
Import Py Normalizer Effects Client ClientSpec Services.

(** One iteration of the loop, spelled out. *)
Lemma get_object_ids_loop_step (svc : service) (fuel : nat) (wc : string)
    (batch_size : nat) (acc : list Z) (offset batch_count : nat) (w : world) :
  get_object_ids_loop svc (S fuel) wc batch_size acc offset batch_count w =
  let w1 := w ++ [StText (MsgFetchingIds (length acc))] in
  let res := svc (requests_made w) (IdQuery wc offset batch_size) in
  let w2 := w1 ++ [HttpGet (IdQuery wc offset batch_size) res] in
  match res with
  | Raises e =>
      (Some acc,
       w2 ++ [StError (if is_request_exception e
                       then MsgErrorFetchingIds offset e
                       else MsgErrorProcessingIds e)])
  | Returns data =>
      match resp_objectIds data with
      | Some ((_ :: _) as batch_ids) =>
          if length batch_ids <? batch_size then (Some (acc ++ batch_ids), w2)
          else get_object_ids_loop svc fuel wc batch_size (acc ++ batch_ids)
                 (offset + length batch_ids) (batch_count + 1)
                 (w2 ++ [Sleep (courtesy_delay (batch_count + 1))])
      | _ => (Some acc, w2)
      end
  end.
Proof.
  simpl. io_step. rewrite requests_made_snoc, Nat.add_0_r.
  destruct (svc (requests_made w) (IdQuery wc offset batch_size)) as [e|data];
    [reflexivity|].
  destruct (resp_objectIds data) as [[|x page]|]; try reflexivity.
  destruct (length (x :: page) <? batch_size); reflexivity.
Qed.

Lemma get_object_ids_unfold (svc : service) (fuel : nat) (wc : string)
    (batch_size : nat) (w : world) :
  get_object_ids svc fuel wc batch_size w =
  match get_object_ids_loop svc fuel wc batch_size [] 0 0 (w ++ [StEmpty]) with
  | (None, w1) => (None, w1)
  | (Some ids, w1) => (Some ids, w1 ++ [StText (MsgRetrievedIds (length ids))])
  end.
Proof.
  unfold get_object_ids. io_step.
  destruct (get_object_ids_loop svc fuel wc batch_size [] 0 0 (w ++ [StEmpty]))
    as [[ids|] w1]; reflexivity.
Qed.

(** X11.  Whatever the service answers, a finished [get_object_ids]
    returns the pages it received put end to end.  Every request it sent
    is an identifier query with the same filter and batch size, at the
    offset equal to the number of identifiers received before it; only
    the last request got an answer that is not a full page. *)
Theorem finished_pagination_any_service (svc : service) (fuel : nat)
    (wc : string) (batch_size : nat) (w w' : world) (ids : list Z) :
  get_object_ids svc fuel wc batch_size w = (Some ids, w') ->
  exists evs,
    w' = w ++ evs /\
    ids = concat (pages_received evs) /\
    http_requests evs =
      map (fun off => IdQuery wc off batch_size)
          (page_offsets 0 (pages_received evs)) /\
    exists init last,
      exchanges evs = init ++ [last] /\
      Forall (fun x => full_page batch_size (snd x) = true) init /\
      full_page batch_size (snd last) = false.
Proof.
  intros Hrun.
  destruct (get_object_ids_run _ _ _ _ _ _ _ Hrun)
    as (evl & init & last & -> & Hids & Hreq & Hex & Hinit & Hlast).
  destruct (framed_log evl (MsgRetrievedIds (length ids))) as (Fr & Fe & Fp & _).
  eexists. split; [reflexivity|].
  rewrite Fr, Fe, Fp. split; [exact Hids|]. split; [exact Hreq|].
  exists init, last. auto.
Qed.

Lemma finished_pagination_any_service_witness :
  exists evs,
    pages_received evs = [[1; 2; 3]; [4; 5; 6]; []]%Z /\
    http_requests evs = [IdQuery "1=1" 0 2; IdQuery "1=1" 3 2; IdQuery "1=1" 6 2].
Proof.
  destruct (finished_pagination_any_service
              (scripted_service [[1; 2; 3]; [4; 5; 6]; []]%Z RequestException)
              3 "1=1" 2 []
              (snd (get_object_ids
                      (scripted_service [[1; 2; 3]; [4; 5; 6]; []]%Z RequestException)
                      3 "1=1" 2 []))
              [1; 2; 3; 4; 5; 6]%Z ltac:(reflexivity))
    as (evs & Hw & _ & Hreq & _).
  exists evs. simpl in Hw. subst evs. split; reflexivity.
Defined.

Lemma stuck_loop_runs_on (page : list Z) (wc : string) (batch_size : nat) :
  page <> [] -> batch_size <= length page ->
  forall fuel acc offset batch_count w,
  exists w',
    get_object_ids_loop (stuck_service page) fuel wc batch_size acc offset
      batch_count w = (None, w') /\
    requests_made w' = requests_made w + fuel.
Proof.
  intros Hne Hfull.
  induction fuel as [|fuel IH]; intros acc offset batch_count w.
  - exists w. split; [reflexivity | lia].
  - rewrite get_object_ids_loop_step. cbv zeta.
    remember (stuck_service page (requests_made w) (IdQuery wc offset batch_size))
      as res eqn:Hres.
    unfold stuck_service in Hres. subst res. cbn [resp_objectIds].
    destruct page as [|x page]; [congruence|].
    rewrite (proj2 (Nat.ltb_ge _ _)) by exact Hfull.
    match goal with
    | |- context [get_object_ids_loop _ fuel _ _ ?a ?o ?b ?W] =>
        destruct (IH a o b W) as (w' & Hrun & Hcount);
        assert (requests_made W = S (requests_made w)) as HW
          by (rewrite !requests_made_snoc; simpl; lia)
    end.
    exists w'. split; [exact Hrun|]. rewrite Hcount, HW. lia.
Qed.

(** X12.  The loop has no bound of its own: against a service that
    answers every request with the same full page, [get_object_ids] is
    still running after any number of iterations, having sent one request
    in each. *)
Theorem full_pages_forever_never_return (page : list Z) (wc : string)
    (batch_size fuel : nat) (w : world) :
  page <> [] -> batch_size <= length page ->
  fst (get_object_ids (stuck_service page) fuel wc batch_size w) = None /\
  requests_made (snd (get_object_ids (stuck_service page) fuel wc batch_size w))
    = requests_made w + fuel.
Proof.
  intros Hne Hfull. rewrite get_object_ids_unfold.
  destruct (stuck_loop_runs_on page wc batch_size Hne Hfull fuel [] 0 0
              (w ++ [StEmpty])) as (w' & -> & Hcount).
  simpl. split; [reflexivity|].
  rewrite Hcount, requests_made_snoc. simpl. lia.
Qed.

Lemma full_pages_forever_never_return_witness :
  fst (get_object_ids (stuck_service [1; 2]%Z) 50 "1=1" 2 []) = None.
Proof.
  exact (proj1 (full_pages_forever_never_return [1; 2]%Z "1=1" 2 50 []
                  ltac:(discriminate) ltac:(simpl; lia))).
Defined.

(** X13.  When the service caps its answers below the batch size asked
    for, the first answer already counts as a short page: [get_object_ids]
    returns the first [cap] identifiers only, after one request and
    without any error text, however many identifiers the service holds. *)
Theorem capped_service_truncates (cap : nat) (ids : list Z) (wc : string)
    (batch_size fuel : nat) (w : world) :
  0 < cap -> cap < batch_size -> cap < length ids -> 0 < fuel ->
  exists evs,
    get_object_ids (capped_service cap ids) fuel wc batch_size w
      = (Some (take cap ids), w ++ evs) /\
    http_requests evs = [IdQuery wc 0 batch_size] /\
    errors evs = [].
Proof.
  intros Hcap Hlt Hlen Hfuel. destruct fuel as [|fuel]; [lia|].
  rewrite get_object_ids_unfold, get_object_ids_loop_step. cbv zeta.
  unfold capped_service at 1. cbn [resp_objectIds].
  rewrite Nat.min_l by lia. rewrite drop_0.
  destruct (take cap ids) as [|x page] eqn:Hpage.
  { apply (f_equal length) in Hpage. rewrite length_take in Hpage.
    simpl in Hpage. lia. }
  assert (length (x :: page) = cap) as Hlp.
  { rewrite <- Hpage, length_take. lia. }
  rewrite (proj2 (Nat.ltb_lt _ _)) by lia.
  eexists. split; [|split].
  - simpl. rewrite <- !app_assoc. reflexivity.
  - reflexivity.
  - reflexivity.
Qed.

Lemma capped_service_truncates_witness :
  fst (get_object_ids (capped_service 2 (id_run 1 7)) 1 "1=1" 5 [])
    = Some [1; 2]%Z.
Proof.
  destruct (capped_service_truncates 2 (id_run 1 7) "1=1" 5 1 []
              ltac:(lia) ltac:(lia) ltac:(simpl; lia) ltac:(lia))
    as (evs & Hrun & _).
  exact (f_equal fst Hrun).
Defined.

End PaginationMore.

Section PaginationPauses.
Import Py Normalizer Effects Client ClientSpec Services.

(** A finished loop pauses once after every request but the last. *)
Lemma get_object_ids_loop_pauses (svc : service) (wc : string) (batch_size : nat) :
  forall fuel acc offset batch_count w ids w',
    get_object_ids_loop svc fuel wc batch_size acc offset batch_count w
      = (Some ids, w') ->
    exists evs,
      w' = w ++ evs /\
      1 <= length (http_requests evs) /\
      sleeps evs =
        map courtesy_delay (seq (batch_count + 1) (length (http_requests evs) - 1)).
Proof.
  induction fuel as [|fuel IH]; intros acc offset batch_count w ids w' Hrun;
    [discriminate|].
  rewrite get_object_ids_loop_step in Hrun. cbv zeta in Hrun.
  assert (forall tail,
            w' = ((w ++ [StText (MsgFetchingIds (length acc))]) ++
                  [HttpGet (IdQuery wc offset batch_size)
                     (svc (requests_made w) (IdQuery wc offset batch_size))]) ++ tail ->
            http_requests tail = [] -> sleeps tail = [] ->
            exists evs,
              w' = w ++ evs /\
              1 <= length (http_requests evs) /\
              sleeps evs =
                map courtesy_delay
                    (seq (batch_count + 1) (length (http_requests evs) - 1)))
    as Hstop.
  { intros tail -> Hreq Hsl. eexists. split; [now rewrite <- !app_assoc|].
    rewrite !http_requests_app, !sleeps_app, Hreq, Hsl. simpl. split; [lia|reflexivity]. }
  destruct (svc (requests_made w) (IdQuery wc offset batch_size)) as [e|data].
  - injection Hrun as <- <-. eapply Hstop; reflexivity.
  - destruct (resp_objectIds data) as [[|x page]|].
    + injection Hrun as <- <-. apply (Hstop []); [now rewrite app_nil_r | reflexivity..].
    + destruct (length (x :: page) <? batch_size).
      * injection Hrun as <- <-.
        apply (Hstop []); [now rewrite app_nil_r | reflexivity..].
      * apply IH in Hrun. destruct Hrun as (evs & -> & Hone & Hsl).
        eexists. split; [now rewrite <- !app_assoc|].
        rewrite !http_requests_app, !sleeps_app, Hsl. simpl.
        split; [lia|].
        replace (length (http_requests evs) - 0) with
          (S (length (http_requests evs) - 1)) by lia.
        simpl. now rewrite (Nat.add_1_r (batch_count + 1)).
    + injection Hrun as <- <-. apply (Hstop []); [now rewrite app_nil_r | reflexivity..].
Qed.

Lemma courtesy_delay_from_one (n : nat) :
  forall j,
    map courtesy_delay (seq (S j) n) =
    map (fun k => courtesy_delay (k + 1)) (seq j n).
Proof.
  induction n as [|n IH]; intros j; [reflexivity|].
  simpl. rewrite (IH (S j)). now rewrite Nat.add_1_r.
Qed.

(** X14.  A finished [get_object_ids] pauses once between two successive
    requests and not after the last one, whatever the service answers:
    the pause after the [k]-th request lasts five seconds when [k] is a
    multiple of ten and one second otherwise, so [r] requests cost
    [(r - 1) + 4 * ((r - 1) / 10)] seconds of pauses. *)
Theorem pagination_pauses (svc : service) (fuel : nat) (wc : string)
    (batch_size : nat) (w w' : world) (ids : list Z) :
  get_object_ids svc fuel wc batch_size w = (Some ids, w') ->
  exists evs,
    w' = w ++ evs /\
    1 <= length (http_requests evs) /\
    sleeps evs = map courtesy_delay (seq 1 (length (http_requests evs) - 1)) /\
    sum_list (sleeps evs) =
      (length (http_requests evs) - 1) + 4 * ((length (http_requests evs) - 1) / 10).
Proof.
  rewrite get_object_ids_unfold. intros Hrun.
  destruct (get_object_ids_loop svc fuel wc batch_size [] 0 0 (w ++ [StEmpty]))
    as [[ids'|] w1] eqn:Hloop; [|discriminate].
  injection Hrun as <- <-.
  destruct (get_object_ids_loop_pauses _ _ _ _ _ _ _ _ _ _ Hloop)
    as (evs & -> & Hone & Hsl).
  change (0 + 1) with 1 in Hsl.
  exists ([StEmpty] ++ evs ++ [StText (MsgRetrievedIds (length ids'))]).
  split; [now rewrite <- !app_assoc|].
  rewrite !http_requests_app, !sleeps_app. simpl. rewrite !app_nil_r.
  split; [exact Hone|]. split; [exact Hsl|].
  rewrite Hsl, courtesy_delay_from_one. apply courtesy_delay_total.
Qed.

Lemma pagination_pauses_witness :
  sleeps (snd (get_object_ids (paged_service (id_run 1 23)) 13 "1=1" 2 []))
    = [1; 1; 1; 1; 1; 1; 1; 1; 1; 5; 1].
Proof.
  destruct (pagination_pauses (paged_service (id_run 1 23)) 13 "1=1" 2 []
              (snd (get_object_ids (paged_service (id_run 1 23)) 13 "1=1" 2 []))
              (id_run 1 23) ltac:(reflexivity))
    as (evs & Hw & _ & Hsl & _).
  simpl in Hw. subst evs. exact Hsl.
Defined.

End PaginationPauses.

(** ** Further properties of the button handlers *)

Section HandlerMore.
Import Py Normalizer Effects Client ClientSpec Services Samples App.

(** A service that answers every chunk with the features [db] keeps under
    the identifiers: the fetch returns the feature of each identifier. *)
Lemma answered_fetch (svc : service) (db : Z -> feature) :
  (forall n chunk out,
     svc n (FeatureQuery chunk out) =
     Returns {| resp_objectIds := None; resp_features := Some (map db chunk) |}) ->
  forall object_ids out w,
  exists evs,
    get_features_by_ids svc object_ids out w =
      ({| fc_type := "FeatureCollection"; features := map db object_ids |}, w ++ evs) /\
    http_requests evs = map (fun chunk => FeatureQuery chunk out) (id_chunks object_ids).
Proof.
  intros Hsvc object_ids out w.
  destruct (get_features_by_ids_run svc object_ids out w) as (evs & Hrun & Hreq & _).
  exists evs. split; [|exact Hreq]. rewrite Hrun. do 2 f_equal.
  rewrite <- (concat_chunks_of FEATURE_BATCH_SIZE object_ids) at 2
    by apply FEATURE_BATCH_SIZE_pos.
  unfold id_chunks. generalize (requests_made w).
  induction (chunks_of FEATURE_BATCH_SIZE object_ids) as [|chunk chunks IH];
    intros n; [reflexivity|].
  rewrite chunk_results_cons, Hsvc. simpl. now rewrite map_app, IH.
Qed.

(** Failed chunks only: nothing is collected. *)
Lemma all_failed_no_features (results : list http_result) :
  Forall (fun r => succeeded r = false) results ->
  concat (map chunk_features results) = [].
Proof.
  induction 1 as [|[e|data] results Hres _ IH]; [reflexivity| |discriminate].
  exact IH.
Qed.

(** X15.  The handlers never lose a loaded collection.  If the session
    held a collection before the button was pressed it holds one
    afterwards, and a session left empty means nothing changed.  After the
    sidebar handler the collection handed to the visualisation is the one
    the session holds; the expander handler leaves [geojson_data] as it
    was. *)
Theorem handlers_keep_loaded_data (svc : service) (fuel : nat) (a a' : app)
    (w w' : world) :
  (load_madison_sidebar svc fuel a w = (Some a', w') ->
     (forall cached, session_geojson_data a' = Some cached ->
        geojson_data a' = Some cached) /\
     (is_Some (session_geojson_data a) -> is_Some (session_geojson_data a')) /\
     (session_geojson_data a' = None -> a' = a)) /\
  (load_madison_expander svc fuel a w = (Some a', w') ->
     geojson_data a' = geojson_data a /\
     (is_Some (session_geojson_data a) -> is_Some (session_geojson_data a')) /\
     (session_geojson_data a' = None -> a' = a)).
Proof.
  split.
  - unfold load_madison_sidebar, mbind, io_bind, mret, io_ret, emit.
    destruct (get_object_ids svc fuel "1=1" OBJECT_ID_BATCH_SIZE
                (w ++ [StInfo MsgStep1])) as [[[|x ids]|] w1]; [| |discriminate].
    + destruct a as [[cached|] current]; simpl; intros H; injection H as <- _;
        simpl; repeat split; try congruence; eauto.
    + destruct (get_features_by_ids svc (x :: ids) "*"
                  (w1 ++ [StInfo (MsgStep2 (length (x :: ids)) FEATURE_BATCH_SIZE)]))
        as [fc w2].
      simpl. intros H. injection H as <- _. simpl.
      repeat split; try congruence; eauto.
  - unfold load_madison_expander, mbind, io_bind, mret, io_ret, emit.
    destruct (get_object_ids svc fuel "1=1" OBJECT_ID_BATCH_SIZE
                (w ++ [StInfo MsgStep1])) as [[[|x ids]|] w1]; [| |discriminate].
    + intros H. injection H as <- _. auto.
    + destruct (get_features_by_ids svc (x :: ids) "*"
                  (w1 ++ [StInfo (MsgStep2 (length (x :: ids)) FEATURE_BATCH_SIZE)]))
        as [fc w2].
      intros H. injection H as <- _. simpl.
      repeat split; try congruence; eauto.
Qed.

Lemma requests_made_info (w : world) (m : message) :
  requests_made (w ++ [StInfo m]) = requests_made w.
Proof. rewrite requests_made_snoc. simpl. lia. Qed.

(** X16.  The handlers report success whatever became of the chunks.
    When identifiers were found and every feature request failed, both
    handlers still write "Successfully loaded 0 features" and store an
    empty collection in the session, in place of what it held. *)
Theorem success_reported_when_all_chunks_fail (svc : service) (fuel : nat)
    (a : app) (w w1 : world) (x : Z) (ids : list Z) :
  get_object_ids svc fuel "1=1" OBJECT_ID_BATCH_SIZE (w ++ [StInfo MsgStep1])
    = (Some (x :: ids), w1) ->
  Forall (fun r => succeeded r = false)
         (chunk_results svc (requests_made w1) "*" (id_chunks (x :: ids))) ->
  exists w2,
    load_madison_sidebar svc fuel a w =
      (Some {| session_geojson_data :=
                 Some {| fc_type := "FeatureCollection"; features := [] |};
               geojson_data :=
                 Some {| fc_type := "FeatureCollection"; features := [] |} |},
       w2 ++ [StSuccess (MsgLoadedFeatures 0); StSuccess (MsgUsingCached 0)]) /\
    load_madison_expander svc fuel a w =
      (Some {| session_geojson_data :=
                 Some {| fc_type := "FeatureCollection"; features := [] |};
               geojson_data := geojson_data a |},
       w2 ++ [StSuccess (MsgLoadedFeatures 0); StRerun]).
Proof.
  intros Hids Hfail.
  destruct (get_features_by_ids_run svc (x :: ids) "*"
              (w1 ++ [StInfo (MsgStep2 (length (x :: ids)) FEATURE_BATCH_SIZE)]))
    as (evs & Hrun & _).
  rewrite requests_made_info, (all_failed_no_features _ Hfail) in Hrun.
  exists ((w1 ++ [StInfo (MsgStep2 (length (x :: ids)) FEATURE_BATCH_SIZE)]) ++ evs).
  split.
  - unfold load_madison_sidebar, mbind, io_bind, mret, io_ret, emit.
    rewrite Hids, Hrun. simpl. now rewrite <- !app_assoc.
  - unfold load_madison_expander, mbind, io_bind, mret, io_ret, emit.
    rewrite Hids, Hrun. simpl. now rewrite <- !app_assoc.
Qed.

Lemma success_reported_when_all_chunks_fail_witness :
  fst (load_madison_sidebar (scripted_service [[1; 2; 3]%Z] RequestException) 1
         {| session_geojson_data := Some mixed_collection;
            geojson_data := Some mixed_collection |} [])
  = Some {| session_geojson_data :=
              Some {| fc_type := "FeatureCollection"; features := [] |};
            geojson_data :=
              Some {| fc_type := "FeatureCollection"; features := [] |} |}.
Proof.
  destruct (success_reported_when_all_chunks_fail
              (scripted_service [[1; 2; 3]%Z] RequestException) 1
              {| session_geojson_data := Some mixed_collection;
                 geojson_data := Some mixed_collection |} []
              (snd (get_object_ids (scripted_service [[1; 2; 3]%Z] RequestException)
                      1 "1=1" OBJECT_ID_BATCH_SIZE ([] ++ [StInfo MsgStep1])))
              1%Z [2; 3]%Z ltac:(reflexivity)
              ltac:(repeat constructor))
    as (w2 & Hside & _).
  exact (f_equal fst Hside).
Defined.

Lemma OBJECT_ID_BATCH_SIZE_pos : 0 < OBJECT_ID_BATCH_SIZE.
Proof. unfold OBJECT_ID_BATCH_SIZE. lia. Qed.

(** X17.  Against a well-behaved service that holds at least one
    identifier, the sidebar handler loads everything: the session and
    [geojson_data] end up holding the features of all the identifiers, in
    order.  The identifier queries, at offsets 0, 1000, 2000, ..., come
    first, then one feature query per chunk of 100 identifiers. *)
Theorem madison_trees_are_loaded (ids : list Z) (fuel : nat) (a : app) (w : world) :
  ids <> [] -> length ids / OBJECT_ID_BATCH_SIZE < fuel ->
  exists evs,
    load_madison_sidebar (paged_service ids) fuel a w =
      (Some {| session_geojson_data :=
                 Some {| fc_type := "FeatureCollection";
                         features := map tree_of_id ids |};
               geojson_data :=
                 Some {| fc_type := "FeatureCollection";
                         features := map tree_of_id ids |} |},
       w ++ evs) /\
    http_requests evs =
      map (fun k => IdQuery "1=1" (k * OBJECT_ID_BATCH_SIZE) OBJECT_ID_BATCH_SIZE)
          (seq 0 (length ids / OBJECT_ID_BATCH_SIZE + 1)) ++
      map (fun chunk => FeatureQuery chunk "*") (id_chunks ids) /\
    length (http_requests evs) =
      length ids / OBJECT_ID_BATCH_SIZE + 1
      + ceil_div (length ids) FEATURE_BATCH_SIZE.
Proof.
  intros Hne Hfuel.
  pose proof OBJECT_ID_BATCH_SIZE_pos as Hpos.
  pose proof (Nat.div_mod_eq (length ids) OBJECT_ID_BATCH_SIZE) as Hdiv.
  pose proof (Nat.mod_upper_bound (length ids) OBJECT_ID_BATCH_SIZE ltac:(lia)) as Hmod.
  destruct (paged_loop_run ids "1=1" OBJECT_ID_BATCH_SIZE
              (length ids / OBJECT_ID_BATCH_SIZE)
              (length ids mod OBJECT_ID_BATCH_SIZE) Hpos ltac:(lia) Hmod
              fuel 0 [] 0 ((w ++ [StInfo MsgStep1]) ++ [StEmpty])
              ltac:(lia) ltac:(lia))
    as (evl & Hloop & Hreq & _).
  rewrite Nat.sub_0_r in Hreq.
  change (0 * OBJECT_ID_BATCH_SIZE) with 0 in Hloop.
  rewrite drop_0 in Hloop. change ([] ++ ids) with ids in Hloop.
  set (w1 := (((w ++ [StInfo MsgStep1]) ++ [StEmpty]) ++ evl) ++
             [StText (MsgRetrievedIds (length ids))]).
  assert (get_object_ids (paged_service ids) fuel "1=1" OBJECT_ID_BATCH_SIZE
            (w ++ [StInfo MsgStep1]) = (Some ids, w1)) as Hids.
  { rewrite get_object_ids_unfold, Hloop. reflexivity. }
  destruct (answered_fetch (paged_service ids) tree_of_id ltac:(reflexivity)
              ids "*" (w1 ++ [StInfo (MsgStep2 (length ids) FEATURE_BATCH_SIZE)]))
    as (evf & Hfetch & Hreqf).
  destruct ids as [|x ids]; [congruence|].
  eexists. split; [|split].
  - unfold load_madison_sidebar, mbind, io_bind, mret, io_ret, emit.
    rewrite Hids, Hfetch. cbn [session_geojson_data features].
    unfold w1. rewrite <- !app_assoc. reflexivity.
  - rewrite !http_requests_app, Hreq, Hreqf. cbn [http_requests omap].
    now rewrite !app_nil_r.
  - rewrite !http_requests_app, Hreq, Hreqf. cbn [http_requests omap].
    rewrite !app_nil_r, !length_app, !length_map, length_seq. simpl length at 1.
    unfold id_chunks. rewrite length_chunks_of by apply FEATURE_BATCH_SIZE_pos.
    reflexivity.
Qed.

Lemma madison_trees_are_loaded_witness :
  fst (load_madison_sidebar (paged_service (id_run 1 3)) 1
         {| session_geojson_data := None; geojson_data := None |} [])
  = Some {| session_geojson_data :=
              Some {| fc_type := "FeatureCollection";
                      features := map tree_of_id (id_run 1 3) |};
            geojson_data :=
              Some {| fc_type := "FeatureCollection";
                      features := map tree_of_id (id_run 1 3) |} |}.
Proof.
  destruct (madison_trees_are_loaded (id_run 1 3) 1
              {| session_geojson_data := None; geojson_data := None |} []
              ltac:(discriminate) ltac:(vm_compute; lia))
    as (evs & Hrun & _).
  exact (f_equal fst Hrun).
Defined.

End HandlerMore.

(** ** The visualisation *)

Section VisualizationFacts.
Import Py Normalizer NormalizerSpec Geometry Visualization Samples.
Local Open Scope Q_scope.

Lemma diameter_column_rows (df : list tree_record) :
  forall table,
    diameter_column df = Some table ->
    map fst table = df /\
    Forall (fun row => diameter (fst row) = JNum (snd row)) table.
Proof.
  induction df as [|r df IH]; intros table H; simpl in H.
  - injection H as <-. split; [reflexivity | constructor].
  - unfold diameter_value in H.
    destruct (diameter r) as [| |d|] eqn:Hd; try discriminate.
    destruct (diameter_column df) as [rest|]; [|discriminate].
    injection H as <-. destruct (IH rest eq_refl) as [Hm Hall].
    split; [simpl; now rewrite Hm | constructor; [exact Hd | exact Hall]].
Qed.

Lemma filtered_rows (min_diameter : Q) (df : list tree_record) :
  forall table,
    diameter_column df = Some table ->
    map fst (List.filter (fun row => Qle_bool min_diameter (snd row)) table)
    = List.filter (keeps min_diameter) df.
Proof.
  induction df as [|r df IH]; intros table H; simpl in H.
  - now injection H as <-.
  - destruct (diameter_value r) as [d|] eqn:Hd; [|discriminate].
    destruct (diameter_column df) as [rest|]; [|discriminate].
    injection H as <-. simpl. unfold keeps at 1. rewrite Hd.
    destruct (Qle_bool min_diameter d); simpl; now rewrite (IH rest eq_refl).
Qed.

Lemma zones_satisfy_filter (min_diameter : Q)
    (df : list tree_record) (zones : list zone_row) :
  protection_zones min_diameter df = Some zones ->
  Forall (fun z => min_diameter <= tree_diameter z) zones.
Proof.
  unfold protection_zones. intros H.
  destruct (diameter_column df) as [table|]; [|discriminate].
  injection H as <-. apply Forall_forall. intros z Hz.
  apply list_elem_of_In, in_map_iff in Hz. destruct Hz as (row & <- & Hin).
  apply filter_In in Hin. destruct Hin as [_ Hkeep]. simpl.
  now apply Qle_bool_iff.
Qed.

(** X18.  The rows shown as protection zones are the rows of the frame
    whose diameter is at least the slider's value, in the order of the
    frame; each carries the radius of its own diameter, at least 5 feet
    and 1.524 m.  When no diameter is below the slider's value, every row
    of the frame is shown. *)
Theorem protection_zones_are_filtered_rows (min_diameter : Q)
    (df : list tree_record) (zones : list zone_row) :
  protection_zones min_diameter df = Some zones ->
  map tree zones = List.filter (keeps min_diameter) df /\
  Forall (fun z =>
            diameter (tree z) = JNum (tree_diameter z) /\
            min_diameter <= tree_diameter z /\
            protection_radius_feet z = calculate_protection_radius (tree_diameter z) /\
            5 <= protection_radius_feet z /\
            protection_radius_meters z = feet_to_meters (protection_radius_feet z) /\
            1524 # 1000 <= protection_radius_meters z) zones /\
  (Forall (fun r => keeps min_diameter r = true) df -> map tree zones = df).
Proof.
  unfold protection_zones. intros H.
  destruct (diameter_column df) as [table|] eqn:Htable; [|discriminate].
  injection H as <-.
  destruct (diameter_column_rows df table Htable) as [_ Hrows].
  assert (map tree
            (map (fun row =>
                    {| tree := fst row; tree_diameter := snd row;
                       protection_radius_feet := calculate_protection_radius (snd row);
                       protection_radius_meters :=
                         feet_to_meters (calculate_protection_radius (snd row)) |})
                 (List.filter (fun row => Qle_bool min_diameter (snd row)) table))
          = List.filter (keeps min_diameter) df) as Hmap.
  { rewrite map_map. simpl. now apply filtered_rows. }
  split; [exact Hmap|]. split.
  - apply Forall_forall. intros z Hz.
    apply list_elem_of_In, in_map_iff in Hz. destruct Hz as (row & <- & Hin).
    apply filter_In in Hin. destruct Hin as [Hin Hkeep]. simpl.
    assert (diameter (fst row) = JNum (snd row)) as Hd.
    { rewrite Forall_forall in Hrows. apply Hrows. now apply list_elem_of_In. }
    apply Qle_bool_iff in Hkeep.
    pose proof (radius_cases (snd row)) as Hr.
    repeat split; try assumption.
    + destruct Hr as [[_ ->]|[H5 ->]]; lra.
    + unfold feet_to_meters. destruct Hr as [[_ ->]|[H5 ->]]; lra.
  - intros Hall. rewrite Hmap. clear Hmap Htable Hrows.
    induction Hall as [|r df Hr _ IH]; [reflexivity|].
    simpl. now rewrite Hr, IH.
Qed.

Lemma protection_zones_are_filtered_rows_witness :
  exists zones,
    protection_zones 7
      [ {| longitude := 0; latitude := 0; diameter := JNum 6;
           species_common := JNull; species_botanical := JNull; status := JNull;
           site_id := JNull; object_id := JNull |};
        {| longitude := 0; latitude := 0; diameter := JNum 12;
           species_common := JNull; species_botanical := JNull; status := JNull;
           site_id := JNull; object_id := JNull |} ] = Some zones /\
    map (fun z => diameter (tree z)) zones = [JNum 12].
Proof.
  match goal with
  | |- exists zones, protection_zones 7 ?rows = Some zones /\ _ =>
      destruct (protection_zones 7 rows) as [zones|] eqn:E;
        [|vm_compute in E; discriminate]
  end.
  exists zones. split; [reflexivity|].
  destruct (protection_zones_are_filtered_rows _ _ _ E) as (Hrows & _).
  rewrite <- (map_map tree diameter), Hrows. reflexivity.
Defined.

Lemma sum_at_least (c : Q) (column : list Q) :
  Forall (fun x => c <= x) column ->
  c * inject_Z (Z.of_nat (length column)) <= fold_right Qplus 0 column.
Proof.
  induction 1 as [|x column Hx _ IH].
  - change (c * 0 <= 0). lra.
  - cbn [length fold_right]. rewrite Nat2Z.inj_succ, <- Z.add_1_r, inject_Z_plus.
    change (inject_Z 1) with 1. lra.
Qed.

(** The mean of a non-empty column is at least any lower bound of its
    values. *)
Lemma mean_at_least (c : Q) (column : list Q) :
  column <> [] -> Forall (fun x => c <= x) column -> c <= mean column.
Proof.
  intros Hne Hall. unfold mean.
  apply Qle_shift_div_l; [|now apply sum_at_least].
  destruct column as [|x column]; [congruence|].
  change 0 with (inject_Z 0). rewrite <- Zlt_Qlt. cbn [length]. lia.
Qed.

Lemma length_filter_le {A : Type} (f : A -> bool) (l : list A) :
  (length (List.filter f l) <= length l)%nat.
Proof.
  induction l as [|x l IH]; simpl; [lia|].
  destruct (f x); simpl; lia.
Qed.

(** X19.  The metrics never count more filtered trees than trees.  With
    at least one tree left by the filter, the average protection radius
    is at least 5 feet and the average diameter is at least the slider's
    value; with none left both averages are shown as 0, and no mean of an
    empty column is taken. *)
Theorem statistics_bounds (min_diameter : Q) (df : list tree_record)
    (zones : list zone_row) :
  protection_zones min_diameter df = Some zones ->
  (filtered_trees (compute_statistics df zones)
   <= total_trees (compute_statistics df zones))%nat /\
  (zones <> [] ->
     5 <= avg_protection (compute_statistics df zones) /\
     min_diameter <= avg_diameter (compute_statistics df zones)) /\
  (zones = [] ->
     avg_protection (compute_statistics df zones) = 0 /\
     avg_diameter (compute_statistics df zones) = 0).
Proof.
  intros Hz.
  assert (map tree zones = List.filter (keeps min_diameter) df /\
          Forall (fun z => min_diameter <= tree_diameter z /\
                           5 <= protection_radius_feet z) zones) as [Hrows Hall].
  { unfold protection_zones in Hz.
    destruct (diameter_column df) as [table|] eqn:Htable; [|discriminate].
    injection Hz as <-. split.
    - rewrite map_map. simpl. now apply filtered_rows.
    - apply Forall_forall. intros z Hin.
      apply list_elem_of_In, in_map_iff in Hin. destruct Hin as (row & <- & Hin).
      apply filter_In in Hin. destruct Hin as [_ Hkeep]. simpl.
      apply Qle_bool_iff in Hkeep. split; [exact Hkeep|].
      destruct (radius_cases (snd row)) as [[_ ->]|[H5 ->]]; lra. }
  split; [|split].
  - simpl. rewrite <- (length_map tree zones), Hrows. apply length_filter_le.
  - intros Hne. simpl.
    destruct zones as [|z zones]; [congruence|]. cbn [length Nat.ltb Nat.leb].
    split; apply mean_at_least; try discriminate.
    + apply Forall_forall. intros x Hx.
      apply list_elem_of_In, in_map_iff in Hx. destruct Hx as (z' & <- & Hz').
      rewrite Forall_forall in Hall. apply Hall. now apply list_elem_of_In.
    + apply Forall_forall. intros x Hx.
      apply list_elem_of_In, in_map_iff in Hx. destruct Hx as (z' & <- & Hz').
      rewrite Forall_forall in Hall. apply Hall. now apply list_elem_of_In.
  - intros ->. simpl. split; reflexivity.
Qed.

Lemma statistics_bounds_witness :
  exists zones,
    protection_zones 0
      [ {| longitude := 0; latitude := 0; diameter := JNum 3;
           species_common := JNull; species_botanical := JNull; status := JNull;
           site_id := JNull; object_id := JNull |};
        {| longitude := 0; latitude := 0; diameter := JNum 9;
           species_common := JNull; species_botanical := JNull; status := JNull;
           site_id := JNull; object_id := JNull |} ] = Some zones /\
    5 <= mean (map protection_radius_feet zones).
Proof.
  match goal with
  | |- exists zones, protection_zones 0 ?rows = Some zones /\ _ =>
      destruct (protection_zones 0 rows) as [zones|] eqn:E;
        [|vm_compute in E; discriminate];
      pose proof (statistics_bounds 0 rows zones E) as (_ & Havg & _)
  end.
  exists zones. split; [reflexivity|].
  destruct zones as [|z zones]; [vm_compute in E; discriminate|].
  exact (proj1 (Havg ltac:(discriminate))).
Defined.

Lemma empty_frame_iff (fc : feature_collection) :
  process_geojson_data fc = inr [] <-> features fc = [].
Proof.
  unfold process_geojson_data. split.
  - intros H. destruct (process_loop_inr _ _ _ H) as (rs & Hrs & Hall).
    simpl in Hrs. subst rs. now inversion Hall.
  - intros ->. reflexivity.
Qed.

(** X20.  What the page shows is decided as follows.  Without a
    collection it shows the instructions; with a collection that cannot be
    normalized, the error of the first failing feature; with a collection
    of no feature, the "no data" warning.  A map is drawn only with at
    least one zone, all zones satisfying the diameter filter; the "no
    trees match" warning appears only when the frame has rows and the
    filter leaves none. *)
Theorem visualize_views (local_file_loaded : bool) (min_diameter : Q)
    (geojson_data : option feature_collection) (v : view) :
  visualize local_file_loaded min_diameter geojson_data = Some v ->
  (v = Instructions local_file_loaded <-> geojson_data = None) /\
  (forall e, v = ProcessingError e <->
     exists fc, geojson_data = Some fc /\ process_geojson_data fc = inl e) /\
  (v = NoDataFound <-> exists fc, geojson_data = Some fc /\ features fc = []) /\
  (forall metrics zones, v = ZoneMap metrics zones ->
     zones <> [] /\
     Forall (fun z => min_diameter <= tree_diameter z) zones /\
     filtered_trees metrics = length zones) /\
  (forall metrics, v = NoTreesMatch metrics ->
     filtered_trees metrics = 0%nat /\ (0 < total_trees metrics)%nat).
Proof.
  unfold visualize. intros Hv.
  destruct geojson_data as [fc|].
  2:{ injection Hv as <-.
      repeat split; try discriminate; try (intros (fc & Hfc & _); discriminate);
        try (intros ? (fc & Hfc & _); discriminate); intros; discriminate. }
  destruct (process_geojson_data fc) as [e|[|r df]] eqn:Hp.
  - injection Hv as <-.
    split; [split; discriminate|].
    split; [intros e'; split|].
    + intros H. injection H as <-. eauto.
    + intros (fc' & Hfc & He). injection Hfc as <-. congruence.
    + split; [split; [discriminate|]|split; intros; discriminate].
      intros (fc' & Hfc & He). injection Hfc as <-.
      apply empty_frame_iff in He. congruence.
  - injection Hv as <-.
    split; [split; discriminate|].
    split; [intros e'; split; [discriminate|]|].
    + intros (fc' & Hfc & He). injection Hfc as <-. congruence.
    + split; [split; [intros _|reflexivity]|split; intros; discriminate].
      exists fc. split; [reflexivity | now apply empty_frame_iff].
  - destruct (protection_zones min_diameter (r :: df)) as [zones|] eqn:Hz;
      [|discriminate].
    pose proof (zones_satisfy_filter min_diameter (r :: df) zones Hz) as Hall.
    assert (features fc <> []) as Hne.
    { intros Hnil. apply empty_frame_iff in Hnil. congruence. }
    destruct zones as [|z zones]; simpl in Hv; injection Hv as <-.
    + split; [split; discriminate|].
      split; [intros e'; split; [discriminate|]|].
      * intros (fc' & Hfc & He). injection Hfc as <-. congruence.
      * split; [split; [discriminate|]|].
        -- intros (fc' & Hfc & He). injection Hfc as <-. contradiction.
        -- split; [intros; discriminate|].
           intros metrics H. injection H as <-. simpl. split; [reflexivity | lia].
    + split; [split; discriminate|].
      split; [intros e'; split; [discriminate|]|].
      * intros (fc' & Hfc & He). injection Hfc as <-. congruence.
      * split; [split; [discriminate|]|].
        -- intros (fc' & Hfc & He). injection Hfc as <-. contradiction.
        -- split; [|intros; discriminate].
           intros metrics zones' H. injection H as <- <-.
           split; [discriminate|]. split; [exact Hall | reflexivity].
Qed.

Lemma visualize_views_witness :
  exists fc,
    Some mixed_collection = Some fc /\ process_geojson_data fc = inl IndexError.
Proof.
  destruct (visualize_views true 0 (Some mixed_collection)
              (ProcessingError IndexError) ltac:(reflexivity))
    as (_ & Herr & _).
  apply (Herr IndexError). reflexivity.
Defined.

End VisualizationFacts.

Section HandlerThenView.
Import Py Normalizer Effects Client Services App Visualization.

(** X21.  When the identifier fetch finds nothing and nothing was loaded
    before, the sidebar handler leaves [geojson_data] at [None], so the
    page shows the loading instructions; an empty collection would have
    shown the "no data" warning instead. *)
Theorem no_identifiers_shows_instructions (svc : service) (fuel : nat)
    (min_diameter : Q) (w w1 : world) :
  get_object_ids svc fuel "1=1" OBJECT_ID_BATCH_SIZE (w ++ [StInfo MsgStep1])
    = (Some [], w1) ->
  exists a' w',
    load_madison_sidebar svc fuel
      {| session_geojson_data := None; geojson_data := None |} w = (Some a', w') /\
    visualize false min_diameter (geojson_data a') = Some (Instructions false) /\
    visualize false min_diameter
      (Some {| fc_type := "FeatureCollection"; features := [] |})
      = Some NoDataFound.
Proof.
  intros Hids.
  exists {| session_geojson_data := None; geojson_data := None |},
         (w1 ++ [StWarning MsgNoObjectIds]).
  split; [|split; reflexivity].
  unfold load_madison_sidebar, mbind, io_bind, mret, io_ret, emit.
  rewrite Hids. reflexivity.
Qed.

Lemma no_identifiers_shows_instructions_witness :
  exists a',
    fst (load_madison_sidebar (paged_service []) 1
           {| session_geojson_data := None; geojson_data := None |} []) = Some a' /\
    visualize false 0 (geojson_data a') = Some (Instructions false).
Proof.
  destruct (no_identifiers_shows_instructions (paged_service []) 1 0 []
              (snd (get_object_ids (paged_service []) 1 "1=1" OBJECT_ID_BATCH_SIZE
                      ([] ++ [StInfo MsgStep1]))) ltac:(reflexivity))
    as (a' & w' & Hrun & Hview & _).
  exists a'. split; [exact (f_equal fst Hrun) | exact Hview].
Defined.

End HandlerThenView.

Section DefaultDiameter.
Import Py Normalizer NormalizerSpec Geometry Visualization Samples.
Local Open Scope Q_scope.

Lemma rows_without_diameter (fs : list feature) :
  Forall (fun f =>
            malformed_geometry f = false /\
            exists props, properties f = Some props /\
                          props !! "DIAMETER" = None /\
                          props !! "diameter" = None) fs ->
  exists rows,
    process_loop fs [] = inr rows /\
    Forall (fun r => diameter r = JNum 0) rows /\
    length rows = length fs.
Proof.
  intros Hall.
  assert (exists rows,
            Forall2 (fun f r => process_feature f = inr r) fs rows /\
            Forall (fun r => diameter r = JNum 0) rows) as (rows & H2 & Hd).
  { induction Hall as [|f fs (Hgeo & props & Hp & Hu & Hl) _ (rows & H2 & Hd)].
    - exists []. split; constructor.
    - destruct (well_formed_succeeds f props Hgeo Hp) as [r Hr].
      exists (r :: rows). split; [now constructor|]. constructor; [|exact Hd].
      destruct (process_feature_inr f r Hr)
        as (props' & g & coords & c0 & c1 & Hp' & _ & _ & _ & _ & Heq).
      rewrite Hp in Hp'. injection Hp' as <-. rewrite Heq. simpl.
      now apply dict_get_absent. }
  exists rows. split; [|split; [exact Hd|]].
  - now rewrite (process_loop_all fs [] rows H2).
  - symmetry. exact (Forall2_length _ _ _ H2).
Qed.

Lemma diameter_column_zero (rows : list tree_record) :
  Forall (fun r => diameter r = JNum 0) rows ->
  diameter_column rows = Some (map (fun r => (r, 0)) rows).
Proof.
  induction 1 as [|r rows Hr _ IH]; [reflexivity|].
  simpl. unfold diameter_value. now rewrite Hr, IH.
Qed.

Lemma filter_constant {A : Type} (b : bool) (l : list A) :
  List.filter (fun _ => b) l = if b then l else [].
Proof.
  induction l as [|x l IH]; simpl; [now destruct b|].
  rewrite IH. now destruct b.
Qed.

Lemma protection_zones_zero (min_diameter : Q) (rows : list tree_record) :
  Forall (fun r => diameter r = JNum 0) rows ->
  protection_zones min_diameter rows =
  Some (if Qle_bool min_diameter 0
        then map (fun r => {| tree := r; tree_diameter := 0;
                              protection_radius_feet := 5;
                              protection_radius_meters := feet_to_meters 5 |}) rows
        else []).
Proof.
  intros Hall. unfold protection_zones. rewrite (diameter_column_zero rows Hall).
  f_equal.
  assert (List.filter (fun row : tree_record * Q => Qle_bool min_diameter (snd row))
            (map (fun r => (r, 0)) rows)
          = if Qle_bool min_diameter 0 then map (fun r => (r, 0)) rows else [])
    as ->.
  { rewrite <- (filter_constant (Qle_bool min_diameter 0)).
    clear Hall. induction rows as [|r rows IH]; [reflexivity|].
    simpl. now rewrite IH. }
  destruct (Qle_bool min_diameter 0); [|reflexivity].
  now rewrite map_map.
Qed.

(** X22.  Trees that come without a diameter are given the diameter 0
    and so the minimum zone of 5 feet.  With the slider at 0 or below all
    of them are drawn; as soon as the slider is above 0 none is, and the
    page shows the "no trees match" warning. *)
Theorem trees_without_diameter_get_minimum_zone (local_file_loaded : bool)
    (min_diameter : Q) (fc : feature_collection) :
  features fc <> [] ->
  Forall (fun f =>
            malformed_geometry f = false /\
            exists props, properties f = Some props /\
                          props !! "DIAMETER" = None /\
                          props !! "diameter" = None) (features fc) ->
  (min_diameter <= 0 ->
     exists metrics zones,
       visualize local_file_loaded min_diameter (Some fc)
         = Some (ZoneMap metrics zones) /\
       length zones = length (features fc) /\
       Forall (fun z => tree_diameter z = 0 /\ protection_radius_feet z = 5) zones) /\
  (0 < min_diameter ->
     exists metrics,
       visualize local_file_loaded min_diameter (Some fc)
         = Some (NoTreesMatch metrics) /\
       total_trees metrics = length (features fc) /\
       filtered_trees metrics = 0%nat).
Proof.
  intros Hne Hall.
  destruct (rows_without_diameter (features fc) Hall) as (rows & Hrows & Hd & Hlen).
  assert (exists r rows', rows = r :: rows') as (r & rows' & ->).
  { destruct rows as [|r rows']; [|eauto].
    destruct (features fc); [congruence | discriminate]. }
  unfold visualize, process_geojson_data. rewrite Hrows.
  rewrite (protection_zones_zero min_diameter (r :: rows') Hd).
  split.
  - intros Hmin. apply Qle_bool_iff in Hmin. rewrite Hmin.
    eexists _, _. split; [reflexivity|]. split.
    + now rewrite length_map.
    + apply Forall_forall. intros z Hz.
      apply list_elem_of_In, in_map_iff in Hz. destruct Hz as (r' & <- & _).
      split; reflexivity.
  - intros Hmin.
    destruct (Qle_bool min_diameter 0) eqn:E.
    { apply Qle_bool_iff in E. exfalso. apply (Qlt_not_le _ _ Hmin E). }
    eexists. split; [reflexivity|]. split; [exact Hlen | reflexivity].
Qed.

Lemma trees_without_diameter_get_minimum_zone_witness :
  exists metrics zones,
    visualize false 0
      (Some {| fc_type := "FeatureCollection"; features := [bare_tree; bare_tree] |})
      = Some (ZoneMap metrics zones) /\
    length zones = 2%nat.
Proof.
  destruct (trees_without_diameter_get_minimum_zone false 0
              {| fc_type := "FeatureCollection"; features := [bare_tree; bare_tree] |}
              ltac:(discriminate)
              ltac:(repeat constructor; eexists; repeat split; reflexivity))
    as (Hshown & _).
  destruct (Hshown ltac:(discriminate)) as (metrics & zones & Hv & Hlen & _).
  exists metrics, zones. split; [exact Hv | exact Hlen].
Defined.

End DefaultDiameter.

(** ** The local file and the start of the script *)

Section LocalFileFacts.
Import Py Normalizer LocalFile Samples.

(** X23.  The opening part of the script looks at the local file at most
    once per session.  After it the session is marked as checked, the
    flag [local_file_loaded] tells whether the session holds a collection,
    and [geojson_data] is that collection; a collection the session held
    is never dropped.  On a session already checked it touches no file and
    changes nothing, so a second run finds what the first one left. *)
Theorem prologue_checks_local_file_once (fs : filesystem) (s : session) :
  checked_local_file (session_after (prologue fs s)) = true /\
  (local_file_loaded (prologue fs s) = true <->
   is_Some (stored (session_after (prologue fs s)))) /\
  geojson_data (prologue fs s) = stored (session_after (prologue fs s)) /\
  (is_Some (stored s) -> is_Some (stored (session_after (prologue fs s)))) /\
  (checked_local_file s = true ->
     session_after (prologue fs s) = s /\ log (prologue fs s) = []) /\
  prologue fs (session_after (prologue fs s)) =
    {| session_after := session_after (prologue fs s);
       local_file_loaded := local_file_loaded (prologue fs s);
       geojson_data := geojson_data (prologue fs s);
       log := [] |} /\
  length (file_accesses (log (prologue fs s))) <= 2.
Proof.
  unfold prologue, load_local_geojson.
  destruct s as [[|] [cached|]]; simpl.
  - repeat split; eauto; intros; try lia; eauto.
  - repeat split; eauto; try lia; try discriminate;
      try (intros [x Hx]; discriminate).
  - destruct (fs LOCAL_FILE) as [|e|doc]; simpl;
      repeat split; eauto; try lia; try discriminate;
      try (intros [x Hx]; discriminate).
  - destruct (fs LOCAL_FILE) as [|e|doc]; simpl;
      repeat split; eauto; try lia; try discriminate;
      try (intros [x Hx]; discriminate).
Qed.

(** X24.  The "Reload Local File" button never loses the collection in
    use.  When the file is missing the file is not opened, and when it is
    missing or cannot be read the session is left as it was and the
    failure is reported; only a file that is read replaces the collection
    and restarts the script. *)
Theorem reload_keeps_collection (fs : filesystem) (s : session) :
  (is_Some (stored s) -> is_Some (stored (fst (reload_local_file fs s)))) /\
  checked_local_file (fst (reload_local_file fs s)) = checked_local_file s /\
  (fs LOCAL_FILE = Absent ->
     reload_local_file fs s = (s, [PathExists LOCAL_FILE; ReloadFailed])) /\
  (forall e, fs LOCAL_FILE = Unreadable e ->
     reload_local_file fs s =
       (s, [PathExists LOCAL_FILE; OpenFile LOCAL_FILE;
            ErrorReadingFile LOCAL_FILE e; ReloadFailed])) /\
  (forall doc, fs LOCAL_FILE = Document doc ->
     reload_local_file fs s =
       ({| checked_local_file := checked_local_file s; stored := Some doc |},
        [PathExists LOCAL_FILE; OpenFile LOCAL_FILE; Reloaded; Rerun])).
Proof.
  unfold reload_local_file, load_local_geojson.
  destruct (fs LOCAL_FILE) as [|e|doc]; simpl;
    repeat split; eauto; try discriminate; intros; congruence.
Qed.

End LocalFileFacts.
